(** * Weisswurst Einstand tracker: a shallow embedding of its data layer

    The development follows the TypeScript sources and the SQL schema of
    the repository:

    - [types.ts]: [Colleague], [AppMode], [SortMode], [AppState];
    - [utils/format.ts]: [parseGermanNumber];
    - [components/Summary.tsx] in its two revisions (with and without the
      mustard calculation);
    - [components/ColleagueList.tsx], [components/ColleagueCard.tsx] and
      [App.tsx]: the handlers that edit the counters;
    - [hooks/useLocalStorageState.ts]: the persisted state container;
    - [components/SceneErrorBoundary.tsx];
    - [pages/AdminPage.tsx] and [pages/SessionPage.tsx];
    - the database schema: tables, CHECK constraints, the three
      SECURITY DEFINER functions and the row level security policies.

    Conventions.  Counters are integers ([Z]).  Prices are JavaScript
    numbers; they are modelled as exact rationals ([Qc]), so the rounding
    of binary floating point is outside the model.  JavaScript strings are
    [string]; only ASCII characters are inspected by the code modelled
    here. *)

From Stdlib Require Import ZArith QArith Qcanon Qround String Ascii List Lia.
From Stdlib Require Import Sorted Permutation.
From stdpp Require Import base option list strings pretty gmap.

Set Warnings "-register-all".

Local Open Scope string_scope.
Local Open Scope list_scope.
Local Open Scope Z_scope.

(** ** JavaScript primitives used by the sources *)

Module JS.

(** Truthiness of a string: only the empty string is falsy. *)
Definition truthy_string (s : string) : bool :=
  match s with
  | EmptyString => false
  | String _ _ => true
  end.

(** Truthiness of [string | null]. *)
Definition truthy_opt_string (o : option string) : bool :=
  match o with
  | None => false
  | Some s => truthy_string s
  end.

(** [x || 0] on an integer valued number. *)
Definition or_zero_Z (x : Z) : Z := if Z.eqb x 0 then 0 else x.

(** [x || 0] on a number. *)
Definition or_zero (x : Qc) : Qc := if Qc_eq_dec x 0%Qc then 0%Qc else x.

(** [x || d] on [number | null]: null and 0 are falsy. *)
Definition or_default (x : option Qc) (d : Qc) : Qc :=
  match x with
  | None => d
  | Some v => if Qc_eq_dec v 0%Qc then d else v
  end.

(** [Math.max(a, b)] on integers. *)
Definition Math_max (a b : Z) : Z := Z.max a b.

(** [Math.floor(a / b)] for integers [a] and [b]. *)
Definition Math_floor_div (a b : Z) : Z := a / b.

(** [Math.ceil(a / b)] for integers [a] and [b]. *)
Definition Math_ceil_div (a b : Z) : Z := - ((- a) / b).

(** [a % b]: the remainder takes the sign of the dividend. *)
Definition rem (a b : Z) : Z := Z.rem a b.

(** An integer as a number. *)
Definition num (z : Z) : Qc := Q2Qc (inject_Z z).

(** [s.replace(pat, rep)] for one-character [pat] and [rep]: only the
    first occurrence is replaced. *)
Fixpoint String_replace (pat rep : ascii) (s : string) : string :=
  match s with
  | EmptyString => EmptyString
  | String a r =>
      if Ascii.eqb a pat then String rep r
      else String a (String_replace pat rep r)
  end.

(** The values of type [number] that [parseFloat] can return. *)
Inductive number : Type :=
| NaN
| Finite (q : Qc)
| Infinity (negative : bool).

Definition isNaN (n : number) : bool :=
  match n with
  | NaN => true
  | _ => false
  end.

End JS.

(** ** [types.ts] *)

Record Colleague : Type := mkColleague {
  id : string;
  name : string;
  count : Z;
  brezelCount : Z
}.

Inductive AppMode : Type := invite | split.

Inductive SortMode : Type := alphabetical | by_count.

Record AppState : Type := mkAppState {
  colleagues : list Colleague;
  activeColleagueId : option string;
  mode : AppMode;
  pricePerWurst : Qc;
  pricePerBrezel : Qc;
  sortMode : SortMode
}.

Definition DEFAULT_PRICE : Qc := Q2Qc (5 # 2).
Definition DEFAULT_BREZEL_PRICE : Qc := Q2Qc (3 # 2).

Definition AppMode_eqb (a b : AppMode) : bool :=
  match a, b with
  | invite, invite | split, split => true
  | _, _ => false
  end.

(** ** [components/Summary.tsx] *)

(** What the summary card displays, in document order.  Amounts are kept
    as numbers; [formatEuro] and [toFixed] only format them. *)
Inductive stat : Type :=
| GesamtWuerste (n : Z)
| GesamtBrezeln (n : Z)
| SenfBenoetigt (grams : Z)
| Glas335 (jars : Z) (price : Qc)
| Glas200 (jars : Z) (price : Qc)
| Gesamtkosten (amount : Qc)
| Durchschnitt (totalWurst : Z) (persons : nat).

(** A displayed row that carries an amount of money. *)
Definition is_cost_figure (s : stat) : bool :=
  match s with
  | Glas335 _ _ | Glas200 _ _ | Gesamtkosten _ => true
  | _ => false
  end.

(** [colleagues.reduce((sum, c) => sum + c.count, 0)] *)
Definition totalWurst (colleagues : list Colleague) : Z :=
  fold_left (fun sum c => sum + count c) colleagues 0.

(** [colleagues.reduce((sum, c) => sum + (c.brezelCount || 0), 0)] *)
Definition totalBrezeln (colleagues : list Colleague) : Z :=
  fold_left (fun sum c => sum + JS.or_zero_Z (brezelCount c)) colleagues 0.

(** The revision without the mustard calculation. *)
Module SummaryPlain.

Definition totalPrice (colleagues : list Colleague)
    (pricePerWurst pricePerBrezel : Qc) : Qc :=
  (JS.num (totalWurst colleagues) * JS.or_zero pricePerWurst
   + JS.num (totalBrezeln colleagues) * JS.or_zero pricePerBrezel)%Qc.

Definition Summary (colleagues : list Colleague) (mode : AppMode)
    (pricePerWurst pricePerBrezel : Qc) : list stat :=
  [GesamtWuerste (totalWurst colleagues);
   GesamtBrezeln (totalBrezeln colleagues)]
  ++ (if AppMode_eqb mode split
      then [Gesamtkosten (totalPrice colleagues pricePerWurst pricePerBrezel)]
      else [])
  ++ (if (0 <? length colleagues)%nat
      then [Durchschnitt (totalWurst colleagues) (length colleagues)]
      else []).

End SummaryPlain.

(** The revision with the mustard calculation. *)
Module SummarySenf.

Definition jar335ml : Z := 335.
Definition jar200ml : Z := 200.
Definition price335ml : Qc := Q2Qc (5 # 2).
Definition price200ml : Qc := Q2Qc (2 # 1).

Record senf : Type := mkSenf {
  senfGramsNeeded : Z;
  jars335 : Z;
  jars200 : Z
}.

(** Lines 16-37 of the component, as a function of [totalWurst]. *)
Definition senf_of (totalWurst : Z) : senf :=
  let senfGramsNeeded := JS.Math_ceil_div totalWurst 2 * 45 in
  let remainingGrams := senfGramsNeeded in
  let jars335 := JS.Math_floor_div remainingGrams jar335ml in
  let remainingGrams := JS.rem remainingGrams jar335ml in
  let jars200 :=
    if 0 <? remainingGrams
    then JS.Math_ceil_div remainingGrams jar200ml
    else 0 in
  mkSenf senfGramsNeeded jars335 jars200.

Definition senfPrice (s : senf) : Qc :=
  (JS.num (jars335 s) * price335ml + JS.num (jars200 s) * price200ml)%Qc.

Definition totalPrice (colleagues : list Colleague) (mode : AppMode)
    (pricePerWurst pricePerBrezel : Qc) : Qc :=
  (JS.num (totalWurst colleagues) * JS.or_zero pricePerWurst
   + JS.num (totalBrezeln colleagues) * JS.or_zero pricePerBrezel
   + (if AppMode_eqb mode split
      then senfPrice (senf_of (totalWurst colleagues))
      else 0))%Qc.

Definition Summary (colleagues : list Colleague) (mode : AppMode)
    (pricePerWurst pricePerBrezel : Qc) : list stat :=
  let s := senf_of (totalWurst colleagues) in
  [GesamtWuerste (totalWurst colleagues);
   GesamtBrezeln (totalBrezeln colleagues)]
  ++ (if 0 <? totalWurst colleagues
      then [SenfBenoetigt (senfGramsNeeded s)]
           ++ (if (0 <? jars335 s) || (0 <? jars200 s)
               then (if 0 <? jars335 s
                     then [Glas335 (jars335 s) (JS.num (jars335 s) * price335ml)%Qc]
                     else [])
                    ++ (if 0 <? jars200 s
                        then [Glas200 (jars200 s) (JS.num (jars200 s) * price200ml)%Qc]
                        else [])
               else [])
      else [])
  ++ (if AppMode_eqb mode split
      then [Gesamtkosten (totalPrice colleagues mode pricePerWurst pricePerBrezel)]
      else [])
  ++ (if (0 <? length colleagues)%nat
      then [Durchschnitt (totalWurst colleagues) (length colleagues)]
      else []).

End SummarySenf.

(** ** [components/ColleagueCard.tsx] *)

Module ColleagueCard.

Definition totalPrice (colleague : Colleague)
    (pricePerWurst pricePerBrezel : Qc) : Qc :=
  (JS.num (count colleague) * pricePerWurst
   + JS.num (JS.or_zero_Z (brezelCount colleague)) * pricePerBrezel)%Qc.


End ColleagueCard.

(** ** [components/ColleagueList.tsx]

    Each handler computes the list it passes to [onColleaguesChange]. *)

Module ColleagueList.

Definition with_name (c : Colleague) (n : string) : Colleague :=
  mkColleague (id c) n (count c) (brezelCount c).
Definition with_count (c : Colleague) (n : Z) : Colleague :=
  mkColleague (id c) (name c) n (brezelCount c).
Definition with_brezelCount (c : Colleague) (n : Z) : Colleague :=
  mkColleague (id c) (name c) (count c) n.

(** [handleAdd], after [trimmedName] has been computed and found
    non-empty; [uuid] is the result of [uuidv4()]. *)
Definition handleAdd (colleagues : list Colleague)
    (uuid trimmedName : string) : list Colleague :=
  colleagues ++ [mkColleague uuid trimmedName 0 0].

Definition handleEdit (colleagues : list Colleague)
    (id0 name0 : string) : list Colleague :=
  map (fun c => if String.eqb (id c) id0 then with_name c name0 else c)
      colleagues.

Definition handleDelete (colleagues : list Colleague)
    (id0 : string) : list Colleague :=
  List.filter (fun c => negb (String.eqb (id c) id0)) colleagues.

Definition handleDecrementWurst (colleagues : list Colleague)
    (id0 : string) : list Colleague :=
  map (fun c =>
         if String.eqb (id c) id0
         then let newCount := JS.Math_max 0 (count c - 1) in
              with_count c newCount
         else c)
      colleagues.

Definition handleDecrementBrezel (colleagues : list Colleague)
    (id0 : string) : list Colleague :=
  map (fun c =>
         if String.eqb (id c) id0
         then let newBrezelCount :=
                JS.Math_max 0 (JS.or_zero_Z (brezelCount c) - 1) in
              with_brezelCount c newBrezelCount
         else c)
      colleagues.

Definition handleReset (colleagues : list Colleague)
    (id0 : string) : list Colleague :=
  map (fun c =>
         if String.eqb (id c) id0
         then with_brezelCount (with_count c 0) 0
         else c)
      colleagues.

End ColleagueList.

(** ** [App.tsx] *)

Module App.

Definition initialState : AppState :=
  mkAppState [] None invite DEFAULT_PRICE DEFAULT_BREZEL_PRICE alphabetical.

Definition with_colleagues (prev : AppState) (l : list Colleague) : AppState :=
  mkAppState l (activeColleagueId prev) (mode prev)
             (pricePerWurst prev) (pricePerBrezel prev) (sortMode prev).
Definition with_activeColleagueId (prev : AppState) (a : option string) : AppState :=
  mkAppState (colleagues prev) a (mode prev)
             (pricePerWurst prev) (pricePerBrezel prev) (sortMode prev).

(** [c.id === prev.activeColleagueId] *)
Definition is_active (prev : AppState) (c : Colleague) : bool :=
  match activeColleagueId prev with
  | Some a => String.eqb (id c) a
  | None => false
  end.

(** [handleDipComplete] closes over the rendered [state]; the updater
    it hands to [setState] receives the latest state [prev]. *)
Definition handleDipComplete (state prev : AppState) : AppState :=
  if negb (JS.truthy_opt_string (activeColleagueId state)) then prev
  else
    with_colleagues prev
      (map (fun c =>
              if is_active prev c
              then ColleagueList.with_count c (count c + 1)
              else c)
           (colleagues prev)).

Definition handleBrezelComplete (state prev : AppState) : AppState :=
  if negb (JS.truthy_opt_string (activeColleagueId state)) then prev
  else
    with_colleagues prev
      (map (fun c =>
              if is_active prev c
              then ColleagueList.with_brezelCount c
                     (JS.or_zero_Z (brezelCount c) + 1)
              else c)
           (colleagues prev)).

Definition handleResetAll (prev : AppState) : AppState :=
  with_colleagues prev
    (map (fun c => ColleagueList.with_brezelCount
                     (ColleagueList.with_count c 0) 0)
         (colleagues prev)).

(** The user actions of the local application that touch the list of
    colleagues, wired as in the JSX of [App]: the list computed by a
    [ColleagueList] handler goes through [onColleaguesChange]. *)
Inductive action : Type :=
| DipComplete
| BrezelComplete
| ResetAll
| Add (uuid trimmedName : string)
| Edit (id0 name0 : string)
| Delete (id0 : string)
| DecrementWurst (id0 : string)
| DecrementBrezel (id0 : string)
| Reset (id0 : string).

Definition step (a : action) (state : AppState) : AppState :=
  match a with
  | DipComplete => handleDipComplete state state
  | BrezelComplete => handleBrezelComplete state state
  | ResetAll => handleResetAll state
  | Add uuid trimmedName =>
      with_activeColleagueId
        (with_colleagues state
           (ColleagueList.handleAdd (colleagues state) uuid trimmedName))
        (Some uuid)
  | Edit id0 name0 =>
      with_colleagues state (ColleagueList.handleEdit (colleagues state) id0 name0)
  | Delete id0 =>
      let state' :=
        with_colleagues state (ColleagueList.handleDelete (colleagues state) id0) in
      match activeColleagueId state with
      | Some a =>
          if String.eqb a id0 then with_activeColleagueId state' None else state'
      | None => state'
      end
  | DecrementWurst id0 =>
      with_colleagues state
        (ColleagueList.handleDecrementWurst (colleagues state) id0)
  | DecrementBrezel id0 =>
      with_colleagues state
        (ColleagueList.handleDecrementBrezel (colleagues state) id0)
  | Reset id0 =>
      with_colleagues state (ColleagueList.handleReset (colleagues state) id0)
  end.

End App.

(** ** The database schema

    Rows of [einstand_sessions] and [einstand_entries].  UUIDs and text are
    strings, timestamps are integers, NULL is [None].  The CHECK
    constraints on [mode] and [status] are the two enumerations. *)

Inductive SessionMode : Type := INVITE | SPLIT.
Inductive SessionStatus : Type := OPEN | CLOSED.

Module Session.
Record t : Type := mk {
  id : string;
  title : option string;
  mode : SessionMode;
  price_wurst : option Qc;
  price_pretzel : option Qc;
  status : SessionStatus;
  admin_secret : string;
  created_at : Z;
  deleted_at : option Z
}.

Definition with_status (s : t) (st : SessionStatus) : t :=
  mk (id s) (title s) (mode s) (price_wurst s) (price_pretzel s)
     st (admin_secret s) (created_at s) (deleted_at s).
Definition with_deleted_at (s : t) (d : option Z) : t :=
  mk (id s) (title s) (mode s) (price_wurst s) (price_pretzel s)
     (status s) (admin_secret s) (created_at s) d.
End Session.

Module Entry.
Record t : Type := mk {
  id : string;
  session_id : string;
  display_name : string;
  wurst_count : Z;
  pretzel_count : Z;
  created_at : Z;
  updated_at : Z
}.
End Entry.

Record database : Type := mkDatabase {
  einstand_sessions : list Session.t;
  einstand_entries : list Entry.t
}.

Definition SessionStatus_eqb (a b : SessionStatus) : bool :=
  match a, b with
  | OPEN, OPEN | CLOSED, CLOSED => true
  | _, _ => false
  end.

Definition SessionMode_eqb (a b : SessionMode) : bool :=
  match a, b with
  | INVITE, INVITE | SPLIT, SPLIT => true
  | _, _ => false
  end.

Module SQL.

(** [column = parameter] in a WHERE clause: a NULL parameter makes the
    comparison unknown, which selects no row. *)
Definition eq_param (column : string) (parameter : option string) : bool :=
  match parameter with
  | Some p => String.eqb column p
  | None => false
  end.

(** [column IS NULL] *)
Definition is_null {A : Type} (column : option A) : bool :=
  match column with
  | None => true
  | Some _ => false
  end.

(** [UPDATE table SET ... WHERE ...]: the new table and ROW_COUNT. *)
Definition update {A : Type} (where_ : A -> bool) (set : A -> A)
    (table : list A) : list A * nat :=
  (map (fun r => if where_ r then set r else r) table,
   length (List.filter where_ table)).

End SQL.

(** *** The SECURITY DEFINER functions

    Each runs one UPDATE, reads ROW_COUNT with GET DIAGNOSTICS and returns
    whether it is greater than 0.  (The variable that receives ROW_COUNT
    is declared BOOLEAN in the source; the embedding keeps the count and
    the comparison [> 0] as written and does not model PL/pgSQL
    coercions.) *)

Definition close_session (p_session_id p_admin_secret : option string)
    (db : database) : database * bool :=
  let '(sessions, v_found) :=
    SQL.update
      (fun s => SQL.eq_param (Session.id s) p_session_id
                && SQL.eq_param (Session.admin_secret s) p_admin_secret
                && SQL.is_null (Session.deleted_at s)
                && SessionStatus_eqb (Session.status s) OPEN)
      (fun s => Session.with_status s CLOSED)
      (einstand_sessions db) in
  (mkDatabase sessions (einstand_entries db), (0 <? v_found)%nat).

Definition delete_session (now : Z) (p_session_id p_admin_secret : option string)
    (db : database) : database * bool :=
  let '(sessions, v_found) :=
    SQL.update
      (fun s => SQL.eq_param (Session.id s) p_session_id
                && SQL.eq_param (Session.admin_secret s) p_admin_secret
                && SQL.is_null (Session.deleted_at s))
      (fun s => Session.with_deleted_at s (Some now))
      (einstand_sessions db) in
  (mkDatabase sessions (einstand_entries db), (0 <? v_found)%nat).

Definition reopen_session (p_session_id p_admin_secret : option string)
    (db : database) : database * bool :=
  let '(sessions, v_found) :=
    SQL.update
      (fun s => SQL.eq_param (Session.id s) p_session_id
                && SQL.eq_param (Session.admin_secret s) p_admin_secret
                && SQL.is_null (Session.deleted_at s)
                && SessionStatus_eqb (Session.status s) CLOSED)
      (fun s => Session.with_status s OPEN)
      (einstand_sessions db) in
  (mkDatabase sessions (einstand_entries db), (0 <? v_found)%nat).

(** The three functions under one name. *)
Inductive admin_function : Type := CloseSession | DeleteSession | ReopenSession.

Definition call_admin (f : admin_function) (now : Z)
    (p_session_id p_admin_secret : option string) (db : database)
    : database * bool :=
  match f with
  | CloseSession => close_session p_session_id p_admin_secret db
  | DeleteSession => delete_session now p_session_id p_admin_secret db
  | ReopenSession => reopen_session p_session_id p_admin_secret db
  end.

(** *** Row level security and constraints on [einstand_entries] *)

(** The EXISTS sub-query shared by the INSERT, UPDATE and DELETE
    policies: an OPEN session that is not deleted has this id. *)
Definition open_session_exists (sessions : list Session.t)
    (session_id : string) : bool :=
  existsb
    (fun s => String.eqb (Session.id s) session_id
              && SessionStatus_eqb (Session.status s) OPEN
              && SQL.is_null (Session.deleted_at s))
    sessions.

(** [CHECK (wurst_count >= 0)] and [CHECK (pretzel_count >= 0)] *)
Definition entry_checks (e : Entry.t) : bool :=
  (0 <=? Entry.wurst_count e) && (0 <=? Entry.pretzel_count e).

(** The columns an UPDATE sent by the client may set ([EntryUpdate]). *)
Record EntryUpdate : Type := mkEntryUpdate {
  set_session_id : option string;
  set_display_name : option string;
  set_wurst_count : option Z;
  set_pretzel_count : option Z
}.

(** The new row: the SET clause, then the trigger [entries_updated_at]. *)
Definition updated_entry (now : Z) (u : EntryUpdate) (e : Entry.t) : Entry.t :=
  Entry.mk (Entry.id e)
           (default (Entry.session_id e) (set_session_id u))
           (default (Entry.display_name e) (set_display_name u))
           (default (Entry.wurst_count e) (set_wurst_count u))
           (default (Entry.pretzel_count e) (set_pretzel_count u))
           (Entry.created_at e)
           now.

(** INSERT of one row by a client: policy [entries_insert_open_session]
    (WITH CHECK), the CHECK constraints and the primary key.  [None] is
    an error; the table is then unchanged. *)
Definition insert_entry (new : Entry.t) (db : database) : option database :=
  if open_session_exists (einstand_sessions db) (Entry.session_id new)
     && entry_checks new
     && negb (existsb (fun e => String.eqb (Entry.id e) (Entry.id new))
                      (einstand_entries db))
  then Some (mkDatabase (einstand_sessions db) (einstand_entries db ++ [new]))
  else None.

(** UPDATE by a client: policy [entries_update_open_session].  Rows that
    fail USING are not seen by the statement; a new row that fails WITH
    CHECK or a CHECK constraint aborts the statement. *)
Definition update_entries (now : Z) (where_ : Entry.t -> bool)
    (u : EntryUpdate) (db : database) : option database :=
  let sessions := einstand_sessions db in
  let target e :=
    where_ e && open_session_exists sessions (Entry.session_id e) in
  let accepted e :=
    open_session_exists sessions (Entry.session_id (updated_entry now u e))
    && entry_checks (updated_entry now u e) in
  if forallb (fun e => negb (target e) || accepted e) (einstand_entries db)
  then Some (mkDatabase sessions
               (map (fun e => if target e then updated_entry now u e else e)
                    (einstand_entries db)))
  else None.

(** DELETE by a client: policy [entries_delete_open_session] (USING). *)
Definition delete_entries (where_ : Entry.t -> bool) (db : database) : database :=
  let sessions := einstand_sessions db in
  mkDatabase sessions
    (List.filter
       (fun e => negb (where_ e
                       && open_session_exists sessions (Entry.session_id e)))
       (einstand_entries db)).

(** INSERT into [einstand_sessions]: policy [sessions_insert_anon] lets
    every row through; the primary key rejects a duplicate id. *)
Definition insert_session (new : Session.t) (db : database) : option database :=
  if existsb (fun s => String.eqb (Session.id s) (Session.id new))
             (einstand_sessions db)
  then None
  else Some (mkDatabase (einstand_sessions db ++ [new]) (einstand_entries db)).

(** What a client holding the anon key can send.  There is no UPDATE or
    DELETE policy on [einstand_sessions], and neither is granted, so such
    statements change nothing. *)
Inductive request : Type :=
| Rpc (f : admin_function) (p_session_id p_admin_secret : option string)
| InsertSession (new : Session.t)
| UpdateSessions
| DeleteSessions
| InsertEntry (new : Entry.t)
| UpdateEntries (where_ : Entry.t -> bool) (u : EntryUpdate)
| DeleteEntries (where_ : Entry.t -> bool).

(** The database after a request made at time [now]; a failed statement
    leaves it as it was. *)
Definition exec (now : Z) (r : request) (db : database) : database :=
  match r with
  | Rpc f p_session_id p_admin_secret =>
      fst (call_admin f now p_session_id p_admin_secret db)
  | InsertSession new => default db (insert_session new db)
  | UpdateSessions | DeleteSessions => db
  | InsertEntry new => default db (insert_entry new db)
  | UpdateEntries where_ u => default db (update_entries now where_ u db)
  | DeleteEntries where_ => delete_entries where_ db
  end.

(** A history of requests with the time each was made. *)
Fixpoint run (history : list (Z * request)) (db : database) : database :=
  match history with
  | [] => db
  | (now, r) :: rest => run rest (exec now r db)
  end.

(** The primary key of [einstand_sessions]. *)
Definition sessions_pk (db : database) : Prop :=
  NoDup (map Session.id (einstand_sessions db)).


(** ** [pages/SessionPage.tsx]

    The handlers read the entry from the page's copy of the entries
    ([entries], kept current by the realtime subscription) and send one
    statement to the database, or return without sending anything. *)

Module SessionPage.

(** [entries.find((e) => e.id === entryId)] *)
Definition find_entry (entries : list Entry.t) (entryId : string)
    : option Entry.t :=
  List.find (fun e => String.eqb (Entry.id e) entryId) entries.

(** [.eq('id', entryId)] *)
Definition eq_id (entryId : string) : Entry.t -> bool :=
  fun e => String.eqb (Entry.id e) entryId.

Definition update_wurst_count (n : Z) : EntryUpdate :=
  mkEntryUpdate None None (Some n) None.
Definition update_pretzel_count (n : Z) : EntryUpdate :=
  mkEntryUpdate None None None (Some n).
Definition update_both_counts (w p : Z) : EntryUpdate :=
  mkEntryUpdate None None (Some w) (Some p).

Definition handleDipComplete (activeEntryId : option string)
    (entries : list Entry.t) : option request :=
  match activeEntryId with
  | None => None
  | Some activeEntryId =>
      if negb (JS.truthy_string activeEntryId) then None
      else
        match find_entry entries activeEntryId with
        | None => None
        | Some entry =>
            Some (UpdateEntries (eq_id activeEntryId)
                    (update_wurst_count (Entry.wurst_count entry + 1)))
        end
  end.

Definition handleBrezelComplete (activeEntryId : option string)
    (entries : list Entry.t) : option request :=
  match activeEntryId with
  | None => None
  | Some activeEntryId =>
      if negb (JS.truthy_string activeEntryId) then None
      else
        match find_entry entries activeEntryId with
        | None => None
        | Some entry =>
            Some (UpdateEntries (eq_id activeEntryId)
                    (update_pretzel_count (Entry.pretzel_count entry + 1)))
        end
  end.

Definition handleDecrementWurst (entries : list Entry.t)
    (entryId : string) : option request :=
  match find_entry entries entryId with
  | None => None
  | Some entry =>
      if Entry.wurst_count entry <=? 0 then None
      else
        let newCount := Entry.wurst_count entry - 1 in
        Some (UpdateEntries (eq_id entryId) (update_wurst_count newCount))
  end.

Definition handleDecrementBrezel (entries : list Entry.t)
    (entryId : string) : option request :=
  match find_entry entries entryId with
  | None => None
  | Some entry =>
      if Entry.pretzel_count entry <=? 0 then None
      else
        let newCount := Entry.pretzel_count entry - 1 in
        Some (UpdateEntries (eq_id entryId) (update_pretzel_count newCount))
  end.

Definition handleReset (entries : list Entry.t)
    (entryId : string) : option request :=
  match find_entry entries entryId with
  | None => None
  | Some entry =>
      Some (UpdateEntries (eq_id entryId) (update_both_counts 0 0))
  end.

Definition handleDeleteEntry (entries : list Entry.t)
    (entryId : string) : option request :=
  match find_entry entries entryId with
  | None => None
  | Some entry => Some (DeleteEntries (eq_id entryId))
  end.

(** [handleJoin], after the guard on [sessionId], [sanitizedName] and
    [isJoining]; the database supplies the id and both timestamps. *)
Definition handleJoin (sessionId sanitizedName : string)
    (uuid : string) (now : Z) : request :=
  InsertEntry (Entry.mk uuid sessionId sanitizedName 0 0 now now).

(** [entries.map(entry => ({ id, name, count, brezelCount }))] *)
Definition colleagues_of (entries : list Entry.t) : list Colleague :=
  map (fun entry =>
         mkColleague (Entry.id entry) (Entry.display_name entry)
                     (Entry.wurst_count entry) (Entry.pretzel_count entry))
      entries.

(** The requests the page can produce from its handlers. *)
Inductive action : Type :=
| DipComplete (activeEntryId : option string)
| BrezelComplete (activeEntryId : option string)
| DecrementWurst (entryId : string)
| DecrementBrezel (entryId : string)
| Reset (entryId : string)
| DeleteEntry (entryId : string)
| Join (sessionId sanitizedName uuid : string).

Definition request_of (now : Z) (a : action) (entries : list Entry.t)
    : option request :=
  match a with
  | DipComplete activeEntryId => handleDipComplete activeEntryId entries
  | BrezelComplete activeEntryId => handleBrezelComplete activeEntryId entries
  | DecrementWurst entryId => handleDecrementWurst entries entryId
  | DecrementBrezel entryId => handleDecrementBrezel entries entryId
  | Reset entryId => handleReset entries entryId
  | DeleteEntry entryId => handleDeleteEntry entries entryId
  | Join sessionId sanitizedName uuid =>
      Some (handleJoin sessionId sanitizedName uuid now)
  end.

(** The database after the action. *)
Definition perform (now : Z) (a : action) (entries : list Entry.t)
    (db : database) : database :=
  match request_of now a entries with
  | Some r => exec now r db
  | None => db
  end.

End SessionPage.

(** ** [pages/AdminPage.tsx] *)

Module AdminPage.

Record Totals : Type := mkTotals {
  totalWurst : Z;
  totalPretzel : Z;
  totalCost : Qc
}.

(** The [useMemo] named [totals]; [session] is null until loaded. *)
Definition totals (entries : list Entry.t) (session : option Session.t)
    : Totals :=
  let totalWurst :=
    fold_left (fun sum e => sum + Entry.wurst_count e) entries 0 in
  let totalPretzel :=
    fold_left (fun sum e => sum + Entry.pretzel_count e) entries 0 in
  let totalCost :=
    match session with
    | Some session =>
        if SessionMode_eqb (Session.mode session) SPLIT
        then (JS.num totalWurst * JS.or_default (Session.price_wurst session) 0
              + JS.num totalPretzel
                * JS.or_default (Session.price_pretzel session) 0)%Qc
        else 0%Qc
    | None => 0%Qc
    end in
  mkTotals totalWurst totalPretzel totalCost.

(** What the page displays about prices and counts once the session is
    loaded, in document order. *)
Inductive cell : Type :=
| PriceInfo (wurst pretzel : option Qc)
| Teilnehmer (n : nat)
| Wuerste (n : Z)
| Brezeln (n : Z)
| Gesamt (cost : Qc)
| Row (display_name : string) (wurst pretzel : Z) (betrag : option Qc)
| Footer (wurst pretzel : Z) (cost : Qc).

Definition is_cost_figure (c : cell) : bool :=
  match c with
  | PriceInfo _ _ | Gesamt _ | Footer _ _ _ | Row _ _ _ (Some _) => true
  | _ => false
  end.

Definition betrag (session : Session.t) (entry : Entry.t) : Qc :=
  (JS.num (Entry.wurst_count entry) * JS.or_default (Session.price_wurst session) 0
   + JS.num (Entry.pretzel_count entry)
     * JS.or_default (Session.price_pretzel session) 0)%Qc.

Definition render (entries : list Entry.t) (session : Session.t) : list cell :=
  let t := totals entries (Some session) in
  let is_split := SessionMode_eqb (Session.mode session) SPLIT in
  (if is_split
   then [PriceInfo (Session.price_wurst session) (Session.price_pretzel session)]
   else [])
  ++ [Teilnehmer (length entries); Wuerste (totalWurst t); Brezeln (totalPretzel t)]
  ++ (if is_split then [Gesamt (totalCost t)] else [])
  ++ (if (0 <? length entries)%nat
      then map (fun entry =>
                  Row (Entry.display_name entry) (Entry.wurst_count entry)
                      (Entry.pretzel_count entry)
                      (if is_split then Some (betrag session entry) else None))
               entries
           ++ (if is_split
               then [Footer (totalWurst t) (totalPretzel t) (totalCost t)]
               else [])
      else []).

End AdminPage.

(** ** [utils/format.ts] *)

Section Format.

(** The built-in [parseFloat]. *)
Variable parseFloat : string -> JS.number.

Definition parseGermanNumber (input : string) : JS.number :=
  let normalized := JS.String_replace "," "." input in
  let parsed := parseFloat normalized in
  if JS.isNaN parsed then JS.Finite 0 else parsed.

End Format.

(** ** [components/SceneErrorBoundary.tsx] *)

Module SceneErrorBoundary.

Definition Error : Type := string.

(** React nodes: nothing ([null], [undefined], [false]), text, host
    elements, and component elements.  A component element carries what
    rendering it does: it throws, or it returns a node. *)
Inductive ReactNode : Type :=
| Nothing
| Text (s : string)
| Host (tag : string) (children : list ReactNode)
| Comp (name : string) (body : Error + ReactNode).

(** Truthiness of a node, as tested by [if (this.props.fallback)]. *)
Definition truthy (n : ReactNode) : bool :=
  match n with
  | Nothing => false
  | Text s => JS.truthy_string s
  | Host _ _ | Comp _ _ => true
  end.

Record Props : Type := mkProps {
  children : ReactNode;
  fallback : option ReactNode
}.

Record State : Type := mkState {
  hasError : bool;
  error : option Error
}.



(** The JSX returned when no custom fallback is given. *)
Definition default_fallback : ReactNode :=
  Host "div"
    [Host "div" [Text "🍺"];
     Host "h3" [Text "Hoppla! Da ist was schiefgelaufen."];
     Host "p" [Text "Die 3D-Szene konnte nicht geladen werden."];
     Host "button" [Text "Seite neu laden"]].

Definition render (props : Props) (state : State) : ReactNode :=
  if hasError state then
    match fallback props with
    | Some f => if truthy f then f else default_fallback
    | None => default_fallback
    end
  else children props.




End SceneErrorBoundary.

(** ** [hooks/useLocalStorageState.ts]

    The hook is generic in the type of the state; at run time the state is
    a JavaScript value.  The values that JSON can carry: *)

Inductive json : Type :=
| JNull
| JBool (b : bool)
| JNumber (q : Qc)
| JString (s : string)
| JArray (items : list json)
| JObject (fields : list (string * json)).

Module Obj.

(** [o[k]] on the own properties of an object. *)
Definition get (k : string) (fields : list (string * json)) : option json :=
  match List.find (fun kv => String.eqb (fst kv) k) fields with
  | Some kv => Some (snd kv)
  | None => None
  end.

(** [o[k] = v]: an existing property keeps its place, a new one is
    added at the end. *)
Fixpoint set (k : string) (v : json) (fields : list (string * json))
    : list (string * json) :=
  match fields with
  | [] => [(k, v)]
  | (k', v') :: rest =>
      if String.eqb k' k then (k', v) :: rest
      else (k', v') :: set k v rest
  end.

(** [...source] inside an object literal that so far holds [target]. *)
Definition spread (target source : list (string * json))
    : list (string * json) :=
  fold_left (fun o kv => set (fst kv) (snd kv) o) source target.

(** [typeof v === 'object' && v !== null] *)
Definition is_object (v : json) : bool :=
  match v with
  | JArray _ | JObject _ => true
  | _ => false
  end.

(** The own enumerable properties copied by a spread; the indices of an
    array are its property names. *)
Definition own_properties (v : json) : list (string * json) :=
  match v with
  | JObject fields => fields
  | JArray items => imap (fun i x => (pretty i, x)) items
  | _ => []
  end.

(** [{ ...a, ...b }] *)
Definition spread2 (a b : json) : json :=
  JObject (spread (spread [] (own_properties a)) (own_properties b)).

End Obj.

Section UseLocalStorageState.

(** The built-ins [JSON.stringify] and [JSON.parse]; [None] stands for
    the SyntaxError that [JSON.parse] throws. *)
Variable JSON_stringify : json -> string.
Variable JSON_parse : string -> option json.

(** The initialiser given to [useState]; [localStorage] is a map from
    keys to strings, and [getItem] of an absent key is null. *)
Definition useLocalStorageState_init (localStorage : gmap string string)
    (key : string) (initialValue : json) : json :=
  match localStorage !! key with
  | Some stored =>
      if JS.truthy_string stored then
        match JSON_parse stored with
        | Some parsed =>
            if Obj.is_object parsed && Obj.is_object initialValue
            then Obj.spread2 initialValue parsed
            else parsed
        | None => initialValue
        end
      else initialValue
  | None => initialValue
  end.

(** The effect: [localStorage.setItem(key, JSON.stringify(state))]. *)
Definition useLocalStorageState_effect (localStorage : gmap string string)
    (key : string) (state : json) : gmap string string :=
  <[key := JSON_stringify state]> localStorage.

(** [clearStorage]: the storage and the state afterwards. *)
Definition clearStorage (localStorage : gmap string string)
    (key : string) (initialValue : json) : gmap string string * json :=
  (delete key localStorage, initialValue).

End UseLocalStorageState.

(** An [AppState] as the JavaScript object it is, with the properties in
    the order of the literal [initialState]. *)

Definition Colleague_to_json (c : Colleague) : json :=
  JObject [("id", JString (id c));
           ("name", JString (name c));
           ("count", JNumber (JS.num (count c)));
           ("brezelCount", JNumber (JS.num (brezelCount c)))].

Definition AppMode_to_json (m : AppMode) : json :=
  match m with
  | invite => JString "invite"
  | split => JString "split"
  end.

Definition SortMode_to_json (m : SortMode) : json :=
  match m with
  | alphabetical => JString "alphabetical"
  | by_count => JString "count"
  end.

Definition AppState_to_json (s : AppState) : json :=
  JObject [("colleagues", JArray (map Colleague_to_json (colleagues s)));
           ("activeColleagueId",
            match activeColleagueId s with
            | Some a => JString a
            | None => JNull
            end);
           ("mode", AppMode_to_json (mode s));
           ("pricePerWurst", JNumber (pricePerWurst s));
           ("pricePerBrezel", JNumber (pricePerBrezel s));
           ("sortMode", SortMode_to_json (sortMode s))].

(** ** A reference JSON codec

    [JSON.stringify] and [JSON.parse] are built-ins; the hook above takes
    them as parameters.  This executable pair covers the fragment that an
    [AppState] needs: null, booleans, decimal numbers without exponent,
    strings whose only escapes are those of the quote and the backslash,
    arrays and objects. *)

Module JSONRef.

Definition dquote : ascii := "034"%char.
Definition backslash : ascii := "092"%char.

Definition is_ws (c : ascii) : bool :=
  (Ascii.eqb c " " || Ascii.eqb c "009" || Ascii.eqb c "010" || Ascii.eqb c "013")%char.

Fixpoint skip_ws (s : string) : string :=
  match s with
  | String c r => if is_ws c then skip_ws r else s
  | EmptyString => s
  end.

Definition digit_of (c : ascii) : option Z :=
  let n := Z.of_nat (nat_of_ascii c) in
  if (48 <=? n) && (n <=? 57) then Some (n - 48) else None.

(** Reads a run of digits: its value, its length and the rest. *)
Fixpoint read_digits (s : string) (acc : Z) (count : nat) : Z * nat * string :=
  match s with
  | String c r =>
      match digit_of c with
      | Some d => read_digits r (10 * acc + d) (S count)
      | None => (acc, count, s)
      end
  | EmptyString => (acc, count, s)
  end.

Definition decimal (negative : bool) (int frac : Z) (places : nat) : Qc :=
  let scale := 10 ^ Z.of_nat places in
  let n := int * scale + frac in
  Q2Qc (Qmake (if negative then - n else n) (Z.to_pos scale)).

(** [-? digits (. digits)?] *)
Definition read_number (s : string) : option (Qc * string) :=
  let '(negative, s1) :=
    match s with
    | String "-"%char r => (true, r)
    | _ => (false, s)
    end in
  let '(int, n, s2) := read_digits s1 0 0 in
  if (n =? 0)%nat then None
  else
    match s2 with
    | String "."%char r =>
        let '(frac, k, s3) := read_digits r 0 0 in
        if (k =? 0)%nat then None else Some (decimal negative int frac k, s3)
    | _ => Some (decimal negative int 0 0, s2)
    end.

(** The characters of a string literal after its opening quote. *)
Fixpoint read_string (s : string) : option (string * string) :=
  match s with
  | EmptyString => None
  | String c r =>
      if Ascii.eqb c dquote then Some (EmptyString, r)
      else if Ascii.eqb c backslash then
        match r with
        | String e r' =>
            if Ascii.eqb e dquote || Ascii.eqb e backslash then
              match read_string r' with
              | Some (str, rest) => Some (String e str, rest)
              | None => None
              end
            else None
        | EmptyString => None
        end
      else
        match read_string r with
        | Some (str, rest) => Some (String c str, rest)
        | None => None
        end
  end.

Fixpoint expect (lit : string) (s : string) : option string :=
  match lit, s with
  | EmptyString, _ => Some s
  | String a lit', String b s' => if Ascii.eqb a b then expect lit' s' else None
  | String _ _, EmptyString => None
  end.

Fixpoint parse_value (fuel : nat) (s : string) : option (json * string) :=
  match fuel with
  | O => None
  | S fuel =>
      match skip_ws s with
      | EmptyString => None
      | String c r =>
          if Ascii.eqb c "n" then option_map (pair JNull) (expect "ull" r)
          else if Ascii.eqb c "t" then option_map (pair (JBool true)) (expect "rue" r)
          else if Ascii.eqb c "f" then option_map (pair (JBool false)) (expect "alse" r)
          else if Ascii.eqb c dquote then
            match read_string r with
            | Some (str, rest) => Some (JString str, rest)
            | None => None
            end
          else if Ascii.eqb c "[" then
            match skip_ws r with
            | String "]"%char rest => Some (JArray [], rest)
            | r' =>
                match parse_elements fuel r' with
                | Some (items, rest) => Some (JArray items, rest)
                | None => None
                end
            end
          else if Ascii.eqb c "{" then
            match skip_ws r with
            | String "}"%char rest => Some (JObject [], rest)
            | r' =>
                match parse_members fuel r' with
                | Some (fields, rest) => Some (JObject fields, rest)
                | None => None
                end
            end
          else
            match read_number (String c r) with
            | Some (q, rest) => Some (JNumber q, rest)
            | None => None
            end
      end
  end
with parse_elements (fuel : nat) (s : string) : option (list json * string) :=
  match fuel with
  | O => None
  | S fuel =>
      match parse_value fuel s with
      | Some (v, r) =>
          match skip_ws r with
          | String ","%char r' =>
              match parse_elements fuel r' with
              | Some (vs, rest) => Some (v :: vs, rest)
              | None => None
              end
          | String "]"%char rest => Some ([v], rest)
          | _ => None
          end
      | None => None
      end
  end
with parse_members (fuel : nat) (s : string)
    : option (list (string * json) * string) :=
  match fuel with
  | O => None
  | S fuel =>
      match skip_ws s with
      | String c r =>
          if Ascii.eqb c dquote then
            match read_string r with
            | Some (k, r1) =>
                match skip_ws r1 with
                | String ":"%char r2 =>
                    match parse_value fuel r2 with
                    | Some (v, r3) =>
                        match skip_ws r3 with
                        | String ","%char r4 =>
                            match parse_members fuel r4 with
                            | Some (kvs, rest) => Some ((k, v) :: kvs, rest)
                            | None => None
                            end
                        | String "}"%char rest => Some ([(k, v)], rest)
                        | _ => None
                        end
                    | None => None
                    end
                | _ => None
                end
            | None => None
            end
          else None
      | EmptyString => None
      end
  end.

Definition parse (s : string) : option json :=
  match parse_value (2 * String.length s + 2) s with
  | Some (v, rest) =>
      match skip_ws rest with
      | EmptyString => Some v
      | String _ _ => None
      end
  | None => None
  end.

Fixpoint escape (s : string) : string :=
  match s with
  | EmptyString => EmptyString
  | String c r =>
      if Ascii.eqb c dquote || Ascii.eqb c backslash
      then String backslash (String c (escape r))
      else String c (escape r)
  end.

Definition quote (s : string) : string :=
  String dquote (escape s +:+ String dquote EmptyString).

Fixpoint zeros (n : nat) : string :=
  match n with
  | O => EmptyString
  | S n => String "0" (zeros n)
  end.

Definition pad (k : nat) (digits : string) : string :=
  zeros (k - String.length digits) +:+ digits.

(** The least number of decimal places, from [k] on and within [fuel]
    tries, in which a fraction of denominator [d] is exact. *)
Fixpoint places (fuel k : nat) (d : Z) : option nat :=
  match fuel with
  | O => None
  | S fuel =>
      if (10 ^ Z.of_nat k) mod d =? 0 then Some k else places fuel (S k) d
  end.

(** A number as a decimal literal; a number without a finite decimal
    expansion of at most twenty places is outside the fragment and is
    printed like a non-finite number. *)
Definition print_number (q : Qc) : string :=
  let n := Qnum q in
  let d := Zpos (Qden q) in
  match places 21 0 d with
  | None => "null"
  | Some k =>
      let scale := 10 ^ Z.of_nat k in
      let scaled := Z.abs n * (scale / d) in
      (if n <? 0 then "-" else EmptyString)
      +:+ pretty (scaled / scale)
      +:+ (if (k =? 0)%nat then EmptyString
           else String "." (pad k (pretty (scaled mod scale))))
  end.

Fixpoint stringify (v : json) : string :=
  match v with
  | JNull => "null"
  | JBool true => "true"
  | JBool false => "false"
  | JNumber q => print_number q
  | JString s => quote s
  | JArray items =>
      let fix go (l : list json) : string :=
        match l with
        | [] => EmptyString
        | x :: r =>
            match r with
            | [] => stringify x
            | _ :: _ => stringify x +:+ String "," (go r)
            end
        end in
      String "[" (go items +:+ "]")
  | JObject fields =>
      let fix go (l : list (string * json)) : string :=
        match l with
        | [] => EmptyString
        | (k, x) :: r =>
            match r with
            | [] => quote k +:+ String ":" (stringify x)
            | _ :: _ => quote k +:+ String ":" (stringify x) +:+ String "," (go r)
            end
        end in
      String "{" (go fields +:+ "}")
  end.

End JSONRef.

(** A reference [parseFloat] for decimal literals: leading blanks, an
    optional sign, digits with an optional fraction.  Exponents and
    [Infinity] are left out; it serves the examples. *)
Definition parseFloat_ref (s : string) : JS.number :=
  let s0 := JSONRef.skip_ws s in
  let '(negative, s1) :=
    match s0 with
    | String "-"%char r => (true, r)
    | String "+"%char r => (false, r)
    | _ => (false, s0)
    end in
  let '(int, n, s2) := JSONRef.read_digits s1 0 0 in
  let '(frac, k, _) :=
    match s2 with
    | String "."%char r => JSONRef.read_digits r 0 0
    | _ => (0, 0%nat, s2)
    end in
  if (n =? 0)%nat && (k =? 0)%nat then JS.NaN
  else JS.Finite (JSONRef.decimal negative int frac k).

(** ** What a client can read

    SELECT on [einstand_sessions] is granted to every client; policy
    [sessions_select_not_deleted] shows the rows that are not deleted, with
    all their columns.  Policy [entries_select_active_session] shows the
    entries of sessions that are not deleted. *)

Definition select_sessions (where_ : Session.t -> bool) (db : database)
    : list Session.t :=
  List.filter (fun s => where_ s && SQL.is_null (Session.deleted_at s))
              (einstand_sessions db).


(** The view [einstand_sessions_public]. *)
Module SessionPublic.
Record t : Type := mk {
  id : string;
  title : option string;
  mode : SessionMode;
  price_wurst : option Qc;
  price_pretzel : option Qc;
  status : SessionStatus;
  created_at : Z
}.
End SessionPublic.



(** ** [pages/LandingPage.tsx] *)

Module LandingPage.


End LandingPage.

(** ** [pages/AdminPage.tsx] and [pages/SessionPage.tsx]: loading and
    realtime changes *)

Module Pages.

(** The query of the admin page for its session:
    [.eq('id', sessionId).eq('admin_secret', adminSecret)
     .is('deleted_at', null).single()];
    [.single()] fails unless exactly one row is returned.  The page does
    not query at all without a key. *)
Definition admin_fetch_session (sessionId adminSecret : string)
    (db : database) : option Session.t :=
  if negb (JS.truthy_string sessionId) then None
  else if negb (JS.truthy_string adminSecret) then None
  else
    match select_sessions
            (fun s => String.eqb (Session.id s) sessionId
                      && String.eqb (Session.admin_secret s) adminSecret
                      && SQL.is_null (Session.deleted_at s))
            db with
    | [s] => Some s
    | _ => None
    end.



(** A change of [einstand_entries] as the realtime channel reports it. *)
Inductive change : Type :=
| INSERT (new : Entry.t)
| UPDATE (new : Entry.t)
| DELETE (old : Entry.t).

(** The callback of the entries channel, as an update of [entries]; it is
    the same on both pages. *)
Definition on_entries_change (payload : change) (prev : list Entry.t)
    : list Entry.t :=
  match payload with
  | INSERT newEntry => prev ++ [newEntry]
  | UPDATE updated =>
      map (fun e => if String.eqb (Entry.id e) (Entry.id updated)
                    then updated else e)
          prev
  | DELETE deleted =>
      List.filter (fun e => negb (String.eqb (Entry.id e) (Entry.id deleted)))
                  prev
  end.

(** [onColleaguesChange] of the session page: a shorter list means a
    deletion, and the first colleague missing from it is deleted. *)
Definition onColleaguesChange (entries : list Entry.t)
    (updatedColleagues : list Colleague) : option request :=
  let colleagues := SessionPage.colleagues_of entries in
  if (length updatedColleagues <? length colleagues)%nat then
    match List.find
            (fun c => negb (existsb (fun u => String.eqb (id u) (id c))
                                    updatedColleagues))
            colleagues with
    | Some deletedColleague =>
        SessionPage.handleDeleteEntry entries (id deletedColleague)
    | None => None
    end
  else None.




End Pages.

(** ** Toasts ([App.tsx], the pages) *)

Inductive ToastType : Type := info | success | error | warning.

Record Toast : Type := mkToast {
  toast_id : string;
  message : string;
  type : ToastType
}.

Module Toasts.

(** The update [showToast] makes at once; [id0] is the fresh id it
    draws. *)
Definition showToast (id0 message0 : string) (type0 : ToastType)
    (prev : list Toast) : list Toast :=
  prev ++ [mkToast id0 message0 type0].

(** The update made by the timer of [showToast] after three seconds. *)
Definition expire (id0 : string) (prev : list Toast) : list Toast :=
  List.filter (fun t => negb (String.eqb (toast_id t) id0)) prev.

Definition dismissToast (id0 : string) (prev : list Toast) : list Toast :=
  List.filter (fun t => negb (String.eqb (toast_id t) id0)) prev.

End Toasts.

(** ** [components/ColleagueList.tsx]: the displayed order *)

Module Sorting.

(** [Array.prototype.sort] with a comparator: a stable sort.  The element
    [x] goes before the first element it does not compare greater than. *)
Fixpoint insert {A : Type} (cmp : A -> A -> Z) (x : A) (l : list A) : list A :=
  match l with
  | [] => [x]
  | y :: r => if cmp x y <=? 0 then x :: y :: r else y :: insert cmp x r
  end.

Definition Array_sort {A : Type} (cmp : A -> A -> Z) (l : list A) : list A :=
  fold_right (insert cmp) [] l.

Section SortedColleagues.

(** [a.localeCompare(b, 'de')]: negative, zero or positive. *)
Variable localeCompare : string -> string -> Z.

Definition by_name (a b : Colleague) : Z := localeCompare (name a) (name b).

(** [b.count - a.count || a.name.localeCompare(b.name, 'de')] *)
Definition by_count_then_name (a b : Colleague) : Z :=
  if count b - count a =? 0 then localeCompare (name a) (name b)
  else count b - count a.

Definition sortedColleagues (colleagues : list Colleague) (sortMode : SortMode)
    : list Colleague :=
  let sorted := colleagues in
  match sortMode with
  | alphabetical => Array_sort by_name sorted
  | by_count => Array_sort by_count_then_name sorted
  end.

End SortedColleagues.

End Sorting.

(** ** [components/PriceInput.tsx] *)

Module PriceInput.




Section HandleBlur.

Variable parseFloat : string -> JS.number.


End HandleBlur.

End PriceInput.

(** A reference [localeCompare] for the examples: the ordinal comparison of
    the two strings. *)
Definition localeCompare_ref (a b : string) : Z :=
  match String.compare a b with
  | Lt => -1
  | Eq => 0
  | Gt => 1
  end.

(** ** Notions of the specification *)




(** The character [c] occurs in the string [s]. *)
Definition occurs (c : ascii) (s : string) : Prop :=
  exists pre post, s = pre +:+ String c post.

(** [t] is [s] with its first [c], if any, replaced by [d]. *)
Definition first_replaced (c d : ascii) (s t : string) : Prop :=
  (~ occurs c s /\ t = s)
  \/ (exists pre post,
        s = pre +:+ String c post /\ ~ occurs c pre /\ t = pre +:+ String d post).


(** The entries that belong to a given session. *)
Definition entries_of_session (sid : string) (db : database) : list Entry.t :=
  List.filter (fun e => String.eqb (Entry.session_id e) sid) (einstand_entries db).





(** The WHERE clauses of the three administrative functions. *)
Definition close_where (p_session_id p_admin_secret : option string)
    : Session.t -> bool :=
  fun s => SQL.eq_param (Session.id s) p_session_id
           && SQL.eq_param (Session.admin_secret s) p_admin_secret
           && SQL.is_null (Session.deleted_at s)
           && SessionStatus_eqb (Session.status s) OPEN.

Definition reopen_where (p_session_id p_admin_secret : option string)
    : Session.t -> bool :=
  fun s => SQL.eq_param (Session.id s) p_session_id
           && SQL.eq_param (Session.admin_secret s) p_admin_secret
           && SQL.is_null (Session.deleted_at s)
           && SessionStatus_eqb (Session.status s) CLOSED.

Definition delete_where (p_session_id p_admin_secret : option string)
    : Session.t -> bool :=
  fun s => SQL.eq_param (Session.id s) p_session_id
           && SQL.eq_param (Session.admin_secret s) p_admin_secret
           && SQL.is_null (Session.deleted_at s).

(** The row [s'] is the session [s] at a later time: every column except
    [status] and [deleted_at] is the same, and a deleted session has not
    changed at all. *)
Definition session_kept (s s' : Session.t) : Prop :=
  Session.id s' = Session.id s
  /\ Session.title s' = Session.title s
  /\ Session.mode s' = Session.mode s
  /\ Session.price_wurst s' = Session.price_wurst s
  /\ Session.price_pretzel s' = Session.price_pretzel s
  /\ Session.admin_secret s' = Session.admin_secret s
  /\ Session.created_at s' = Session.created_at s
  /\ (Session.deleted_at s <> None -> s' = s).

(** The primary key of [einstand_entries]. *)
Definition entries_pk (db : database) : Prop :=
  NoDup (map Entry.id (einstand_entries db)).

(** The foreign key of [einstand_entries]: every entry belongs to a
    session in the table. *)
Definition entries_reference (db : database) : Prop :=
  forall e, In e (einstand_entries db) ->
            exists s, In s (einstand_sessions db)
                      /\ Session.id s = Entry.session_id e.

(** No two colleagues share an id. *)
Definition ids_unique (l : list Colleague) : Prop := NoDup (map id l).

(** The selection is empty or names a colleague of the list. *)
Definition selection_valid (state : AppState) : Prop :=
  match activeColleagueId state with
  | None => True
  | Some a => exists c, In c (colleagues state) /\ id c = a
  end.





(** ** Theorems *)

Lemma Math_ceil_div_spec a b :
  0 < b ->
  a <= b * JS.Math_ceil_div a b < a + b.
Proof.
  intros Hb. unfold JS.Math_ceil_div.
  pose proof (Z.div_mod (- a) b ltac:(lia)) as Hdm.
  pose proof (Z.mod_pos_bound (- a) b Hb) as Hm.
  nia.
Qed.

Lemma Math_floor_div_spec a b :
  0 < b ->
  b * JS.Math_floor_div a b <= a < b * JS.Math_floor_div a b + b.
Proof.
  intros Hb. unfold JS.Math_floor_div.
  pose proof (Z.div_mod a b ltac:(lia)) as Hdm.
  pose proof (Z.mod_pos_bound a b Hb) as Hm.
  nia.
Qed.

Lemma senf_grams_nonneg total :
  0 <= total -> 0 <= SummarySenf.senfGramsNeeded (SummarySenf.senf_of total).
Proof.
  intros Ht. cbn [SummarySenf.senf_of SummarySenf.senfGramsNeeded].
  pose proof (Math_ceil_div_spec total 2 ltac:(lia)). lia.
Qed.

(** C9.  For a non-negative sausage total, the mustard needed is
    ceil(total / 2) * 45 grams, the number of 335 ml jars is
    floor(grams / 335), the number of 200 ml jars is ceil(rest / 200) when
    a rest is left (and 0 otherwise), and the jars chosen hold at least the
    grams needed.  Ceiling and floor are stated by their defining
    inequalities. *)
Theorem senf_jars_cover_need (total : Z) :
  0 <= total ->
  let s := SummarySenf.senf_of total in
  let grams := SummarySenf.senfGramsNeeded s in
  let rest := grams - 335 * SummarySenf.jars335 s in
  (exists half, total <= 2 * half < total + 2 /\ grams = half * 45)
  /\ 335 * SummarySenf.jars335 s <= grams < 335 * SummarySenf.jars335 s + 335
  /\ (0 < rest -> rest <= 200 * SummarySenf.jars200 s < rest + 200)
  /\ (rest = 0 -> SummarySenf.jars200 s = 0)
  /\ SummarySenf.jars335 s * 335 + SummarySenf.jars200 s * 200 >= grams.
Proof.
  intros Ht s grams rest.
  pose proof (senf_grams_nonneg total Ht) as Hg. fold s grams in Hg.
  pose proof (Math_ceil_div_spec total 2 ltac:(lia)) as Hhalf.
  pose proof (Math_floor_div_spec grams 335 ltac:(lia)) as Hfloor.
  assert (Hj : SummarySenf.jars335 s = JS.Math_floor_div grams 335) by reflexivity.
  assert (Hrem : JS.rem grams SummarySenf.jar335ml = rest).
  { unfold JS.rem, rest. rewrite Hj. unfold JS.Math_floor_div, SummarySenf.jar335ml.
    rewrite Z.rem_mod_nonneg by lia.
    pose proof (Z.div_mod grams 335 ltac:(lia)). lia. }
  assert (Hj2 : SummarySenf.jars200 s =
                if 0 <? rest then JS.Math_ceil_div rest 200 else 0).
  { rewrite <- Hrem. reflexivity. }
  split; [exists (JS.Math_ceil_div total 2); split; [lia | reflexivity] |].
  split; [rewrite Hj; lia |].
  assert (Hrest : 0 <= rest) by (unfold rest; rewrite Hj; lia).
  destruct (Z.ltb_spec 0 rest) as [Hpos | Hzero].
  - pose proof (Math_ceil_div_spec rest 200 ltac:(lia)) as Hc.
    rewrite Hj2. repeat split; lia.
  - assert (rest = 0) by lia.
    rewrite Hj2. repeat split; lia.
Qed.

(** The statement of C9 at a total of seventeen sausages. *)
Lemma senf_jars_cover_need_witness :
  0 <= 17 /\
  SummarySenf.senf_of 17 = SummarySenf.mkSenf 405 1 1 /\
  SummarySenf.jars335 (SummarySenf.senf_of 17) * 335
  + SummarySenf.jars200 (SummarySenf.senf_of 17) * 200
  >= SummarySenf.senfGramsNeeded (SummarySenf.senf_of 17).
Proof.
  split; [lia |]. split; [reflexivity |].
  apply (senf_jars_cover_need 17). lia.
Defined.

(** *** The local application: [handleDipComplete] *)

Lemma truthy_opt_string_Some a :
  JS.truthy_opt_string (Some a) = true <-> a <> EmptyString.
Proof. destruct a; cbn; split; congruence. Qed.

Lemma Forall2_map_self {A : Type} (R : A -> A -> Prop) (f : A -> A) (l : list A) :
  (forall x, R x (f x)) -> Forall2 R l (map f l).
Proof. intros HR. induction l as [| x l IH]; cbn; constructor; auto. Qed.

(** C6.  With an active colleague selected, [handleDipComplete] keeps the
    list of colleagues in place, adds exactly 1 to the sausage count of
    the records whose id is the active one, leaves their other fields and
    every other record as they were, and leaves the selection, the mode,
    both prices and the sort mode unchanged.  Without a selection (null or
    the empty string) the state is returned as it is. *)
Theorem handleDipComplete_frame (state : AppState) :
  (forall a, activeColleagueId state = Some a -> a <> EmptyString ->
     let state' := App.handleDipComplete state state in
     Forall2 (fun c c' =>
                (id c = a ->
                 id c' = id c /\ name c' = name c
                 /\ brezelCount c' = brezelCount c /\ count c' = count c + 1)
                /\ (id c <> a -> c' = c))
             (colleagues state) (colleagues state')
     /\ activeColleagueId state' = activeColleagueId state
     /\ mode state' = mode state
     /\ pricePerWurst state' = pricePerWurst state
     /\ pricePerBrezel state' = pricePerBrezel state
     /\ sortMode state' = sortMode state)
  /\ (JS.truthy_opt_string (activeColleagueId state) = false ->
      forall prev, App.handleDipComplete state prev = prev).
Proof.
  split.
  - intros a Ha Hne state'. subst state'. unfold App.handleDipComplete.
    rewrite Ha. apply truthy_opt_string_Some in Hne. rewrite Hne. cbn [negb].
    repeat split; try reflexivity; try (cbn; exact Ha).
    cbn [colleagues App.with_colleagues].
    apply Forall2_map_self. intros c. unfold App.is_active. rewrite Ha.
    destruct (String.eqb_spec (id c) a) as [Heq | Hneq]; split; intros H;
      try contradiction; try reflexivity.
    cbn. repeat split; reflexivity.
  - intros Hfalse prev. unfold App.handleDipComplete. rewrite Hfalse. reflexivity.
Qed.

(** C6 at a state with two colleagues, the first of them active. *)
Lemma handleDipComplete_frame_witness :
  let anna := mkColleague "a1" "Anna" 2 1 in
  let ben := mkColleague "b2" "Ben" 0 3 in
  let state := mkAppState [anna; ben] (Some "a1") split
                          DEFAULT_PRICE DEFAULT_BREZEL_PRICE by_count in
  colleagues (App.handleDipComplete state state)
  = [mkColleague "a1" "Anna" 3 1; ben]
  /\ mode (App.handleDipComplete state state) = split.
Proof.
  intros anna ben state.
  split; [reflexivity |].
  pose proof (handleDipComplete_frame state) as [Hsel _].
  destruct (Hsel "a1") as (_ & _ & Hmode & _).
  - reflexivity.
  - discriminate.
  - exact Hmode.
Defined.

(** *** Cost totals *)




Lemma or_zero_Z_id x : JS.or_zero_Z x = x.
Proof. unfold JS.or_zero_Z. destruct (Z.eqb_spec x 0); congruence. Qed.


Lemma fold_left_add {A : Type} (f : A -> Z) (l : list A) (a : Z) :
  fold_left (fun sum x => sum + f x) l a = a + fold_left (fun sum x => sum + f x) l 0.
Proof.
  revert a. induction l as [| x l IH]; intros a; cbn.
  - lia.
  - rewrite (IH (a + f x)), (IH (0 + f x)). lia.
Qed.



Example SummarySenf_totalPrice_one_sausage :
  SummarySenf.totalPrice [mkColleague "a1" "Anna" 1 0] split (Q2Qc (5 # 2)) (Q2Qc (3 # 2))
  = Q2Qc (9 # 2).
Proof. apply Qc_is_canon. vm_compute. reflexivity. Qed.




(** *** Invite mode *)

Example SummarySenf_invite_one_sausage :
  map is_cost_figure
      (SummarySenf.Summary [mkColleague "a1" "Anna" 1 0] invite
                           (Q2Qc (5 # 2)) (Q2Qc (3 # 2)))
  = [false; false; false; true; false].
Proof. vm_compute. reflexivity. Qed.





(** *** [parseGermanNumber] *)

Lemma not_occurs_empty c : ~ occurs c EmptyString.
Proof. intros (pre & post & H). destruct pre; discriminate H. Qed.

Lemma occurs_cons_inv c a s : occurs c (String a s) -> a = c \/ occurs c s.
Proof.
  intros (pre & post & H). destruct pre as [| b pre]; cbn in H.
  - injection H as -> _. now left.
  - injection H as _ ->. right. now exists pre, post.
Qed.

Lemma String_replace_first pat rep s :
  first_replaced pat rep s (JS.String_replace pat rep s).
Proof.
  induction s as [| a s IH]; cbn [JS.String_replace].
  - left. split; [apply not_occurs_empty | reflexivity].
  - destruct (Ascii.eqb_spec a pat) as [-> | Hne].
    + right. exists EmptyString, s. repeat split. apply not_occurs_empty.
    + destruct IH as [[Hno ->] | (pre & post & -> & Hno & ->)].
      * left. split; [| reflexivity].
        intros [Heq | Hocc]%occurs_cons_inv; tauto.
      * right. exists (String a pre), post. repeat split.
        intros [Heq | Hocc]%occurs_cons_inv; tauto.
Qed.

(** C8.  For every [parseFloat] and every input, [parseGermanNumber]
    returns a number other than NaN: with [normalized] the input whose
    first comma, if any, is replaced by a dot, it returns 0 when
    [parseFloat normalized] is NaN and [parseFloat normalized] otherwise.
    ([first_replaced] spells out "first comma replaced by a dot".) *)
Theorem parseGermanNumber_never_NaN (parseFloat : string -> JS.number)
    (input : string) :
  parseGermanNumber parseFloat input <> JS.NaN
  /\ exists normalized,
      first_replaced "," "." input normalized
      /\ parseGermanNumber parseFloat input
         = match parseFloat normalized with
           | JS.NaN => JS.Finite 0
           | parsed => parsed
           end.
Proof.
  unfold parseGermanNumber. split.
  - destruct (parseFloat _) eqn:E; cbn; congruence.
  - exists (JS.String_replace "," "." input). split; [apply String_replace_first |].
    destruct (parseFloat _); reflexivity.
Qed.

Example String_replace_only_first :
  JS.String_replace "," "." "1,234,5" = "1.234,5".
Proof. reflexivity. Qed.

(** *** [SceneErrorBoundary] *)




(** *** The administrative functions *)

Lemma eq_param_true column parameter :
  SQL.eq_param column parameter = true <-> parameter = Some column.
Proof.
  unfold SQL.eq_param. destruct parameter as [p |].
  - rewrite String.eqb_eq. split; [intros -> | intros [= ->]]; reflexivity.
  - split; discriminate.
Qed.




(** The WHERE clause of each function, and what it sets. *)
Lemma call_admin_as_update f now p_session_id p_admin_secret db :
  exists w set,
    (forall s, w s = true ->
               SQL.eq_param (Session.id s) p_session_id = true
               /\ SQL.eq_param (Session.admin_secret s) p_admin_secret = true
               /\ Session.deleted_at s = None)
    /\ (forall s, Session.id (set s) = Session.id s)
    /\ call_admin f now p_session_id p_admin_secret db
       = (mkDatabase (fst (SQL.update w set (einstand_sessions db)))
                     (einstand_entries db),
          (0 <? snd (SQL.update w set (einstand_sessions db)))%nat).
Proof.
  destruct f; cbn [call_admin];
    unfold close_session, delete_session, reopen_session;
    (eexists; eexists; split; [| split; [| reflexivity]]);
    cbn beta.
  all: try (intros s; reflexivity).
  all: intros s Hs; repeat (apply andb_prop in Hs as [Hs ?]);
    repeat split; try assumption;
    destruct (Session.deleted_at s); [discriminate | reflexivity].
Qed.



Example close_session_with_secret :
  close_session (Some "s1") (Some "secret")
    (mkDatabase [Session.mk "s1" None INVITE None None OPEN "secret" 0 None] [])
  = (mkDatabase [Session.mk "s1" None INVITE None None CLOSED "secret" 0 None] [],
     true).
Proof. reflexivity. Qed.

(** *** Soft deletion is final *)

Lemma NoDup_map_inj {A B : Type} (f : A -> B) (l : list A) (x y : A) :
  NoDup (map f l) -> In x l -> In y l -> f x = f y -> x = y.
Proof.
  induction l as [| a l IH]; cbn; [tauto |].
  intros Hnd Hx Hy Hf. apply NoDup_cons in Hnd as [Hnotin Hnd].
  destruct Hx as [-> | Hx], Hy as [-> | Hy]; auto.
  - exfalso. apply Hnotin. rewrite list_elem_of_In, Hf. now apply in_map.
  - exfalso. apply Hnotin. rewrite list_elem_of_In, <- Hf. now apply in_map.
Qed.




















(** *** Counters stay non-negative *)







Lemma find_entry_id entries entryId entry :
  SessionPage.find_entry entries entryId = Some entry -> Entry.id entry = entryId.
Proof.
  unfold SessionPage.find_entry. intros [_ H]%find_some. now apply String.eqb_eq.
Qed.








(** *** The persisted state *)

Lemma get_set k k' v fields :
  Obj.get k (Obj.set k' v fields)
  = if String.eqb k' k then Some v else Obj.get k fields.
Proof.
  unfold Obj.get. induction fields as [| [k0 v0] fields IH]; cbn.
  - destruct (String.eqb k' k); reflexivity.
  - destruct (String.eqb_spec k0 k') as [-> | Hne]; cbn.
    + destruct (String.eqb k' k); reflexivity.
    + destruct (String.eqb_spec k0 k) as [-> | Hne'].
      * apply String.eqb_neq in Hne. rewrite String.eqb_sym in Hne.
        now rewrite Hne.
      * exact IH.
Qed.

Lemma get_absent k fields :
  ~ In k (map fst fields) -> Obj.get k fields = None.
Proof.
  unfold Obj.get. intros Hk.
  destruct (List.find _ fields) as [[k0 v0] |] eqn:E; [| reflexivity].
  apply find_some in E as [Hin Hk0]. cbn [fst] in Hk0.
  apply String.eqb_eq in Hk0. subst k0. exfalso. apply Hk.
  apply in_map_iff. now exists (k, v0).
Qed.

(** A property of the spread comes from the source if the source has it,
    and from the target otherwise. *)
Lemma get_spread k target source :
  NoDup (map fst source) ->
  Obj.get k (Obj.spread target source)
  = match Obj.get k source with
    | Some v => Some v
    | None => Obj.get k target
    end.
Proof.
  unfold Obj.spread. revert target.
  induction source as [| [k0 v0] source IH]; intros target Hnd; cbn [fold_left map].
  - reflexivity.
  - cbn [map fst] in Hnd. apply NoDup_cons in Hnd as [Hnotin Hnd].
    rewrite IH by exact Hnd. cbn [fst snd]. rewrite get_set.
    unfold Obj.get at 3. cbn [List.find fst snd].
    destruct (String.eqb_spec k0 k) as [-> | Hne].
    + rewrite get_absent; [reflexivity |]. now rewrite <- list_elem_of_In.
    + fold (Obj.get k source). reflexivity.
Qed.

Lemma spread2_AppState (s : AppState) :
  Obj.spread2 (AppState_to_json App.initialState) (AppState_to_json s)
  = AppState_to_json s.
Proof. reflexivity. Qed.

(** C7.  Let [JSON.parse] reject the empty string.  A state that
    [JSON.parse] reads back from its [JSON.stringify] text is returned
    unchanged by the initialiser after the effect has stored it, whatever
    else the storage holds.  When the stored text is an object, the
    initial state of the hook is an object in which every property of the
    stored object has the stored value and every other property has the
    value of [initialValue]. *)
Theorem localStorage_roundtrip (JSON_stringify : json -> string)
    (JSON_parse : string -> option json) :
  JSON_parse EmptyString = None ->
  (forall (s : AppState) (localStorage : gmap string string) (key : string),
      JSON_parse (JSON_stringify (AppState_to_json s)) = Some (AppState_to_json s) ->
      useLocalStorageState_init JSON_parse
        (useLocalStorageState_effect JSON_stringify localStorage key
           (AppState_to_json s))
        key (AppState_to_json App.initialState)
      = AppState_to_json s)
  /\ (forall (localStorage : gmap string string) (key stored : string)
             (fields initial : list (string * json)),
        localStorage !! key = Some stored ->
        JSON_parse stored = Some (JObject fields) ->
        NoDup (map fst fields) ->
        NoDup (map fst initial) ->
        exists merged,
          useLocalStorageState_init JSON_parse localStorage key (JObject initial)
          = JObject merged
          /\ forall k,
              Obj.get k merged
              = match Obj.get k fields with
                | Some v => Some v
                | None => Obj.get k initial
                end).
Proof.
  intros Hempty.
  assert (Htruthy : forall stored v,
             JSON_parse stored = Some v -> JS.truthy_string stored = true).
  { intros [| a stored] v H; [congruence | reflexivity]. }
  split.
  - intros s localStorage key Hrep.
    unfold useLocalStorageState_init, useLocalStorageState_effect.
    rewrite lookup_insert_eq, (Htruthy _ _ Hrep), Hrep.
    cbn [Obj.is_object AppState_to_json andb]. apply spread2_AppState.
  - intros localStorage key stored fields initial Hget Hparse Hnd Hnd0.
    unfold useLocalStorageState_init.
    rewrite Hget, (Htruthy _ _ Hparse), Hparse. cbn [Obj.is_object andb].
    eexists. split; [reflexivity |]. intros k.
    cbn [Obj.own_properties]. rewrite get_spread by exact Hnd.
    destruct (Obj.get k fields); [reflexivity |].
    rewrite get_spread by exact Hnd0. destruct (Obj.get k initial); reflexivity.
Qed.

Example JSONRef_stringify_initialState :
  JSONRef.stringify (AppState_to_json App.initialState)
  = String "{" (JSONRef.quote "colleagues" +:+ ":[],"
     +:+ JSONRef.quote "activeColleagueId" +:+ ":null,"
     +:+ JSONRef.quote "mode" +:+ ":" +:+ JSONRef.quote "invite" +:+ ","
     +:+ JSONRef.quote "pricePerWurst" +:+ ":2.5,"
     +:+ JSONRef.quote "pricePerBrezel" +:+ ":1.5,"
     +:+ JSONRef.quote "sortMode" +:+ ":" +:+ JSONRef.quote "alphabetical" +:+ "}").
Proof. vm_compute. reflexivity. Qed.

Ltac json_eq :=
  repeat match goal with
         | |- @eq Qc _ _ => apply Qc_is_canon; vm_compute; reflexivity
         | |- _ => reflexivity
         | |- _ => progress f_equal
         end.

(** C7 with the reference codec, an empty storage and a state with one
    colleague. *)
Lemma localStorage_roundtrip_witness :
  let s := mkAppState [mkColleague "a1" "Anna" 2 1] (Some "a1") split
                      DEFAULT_PRICE DEFAULT_BREZEL_PRICE by_count in
  useLocalStorageState_init JSONRef.parse
    (useLocalStorageState_effect JSONRef.stringify ∅ "weisswurst-einstand"
       (AppState_to_json s))
    "weisswurst-einstand" (AppState_to_json App.initialState)
  = AppState_to_json s.
Proof.
  intros s.
  apply (proj1 (localStorage_roundtrip JSONRef.stringify JSONRef.parse eq_refl)).
  vm_compute. json_eq.
Defined.

Example localStorage_fills_missing_fields :
  useLocalStorageState_init JSONRef.parse
    {[ "weisswurst-einstand" := String "{" (JSONRef.quote "mode" +:+ ":"
                                            +:+ JSONRef.quote "split" +:+ "}") ]}
    "weisswurst-einstand" (AppState_to_json App.initialState)
  = AppState_to_json
      (mkAppState [] None split DEFAULT_PRICE DEFAULT_BREZEL_PRICE alphabetical).
Proof. vm_compute. json_eq. Qed.

Example localStorage_unreadable :
  useLocalStorageState_init JSONRef.parse
    {[ "weisswurst-einstand" := "{oops" ]}
    "weisswurst-einstand" (AppState_to_json App.initialState)
  = AppState_to_json App.initialState.
Proof. vm_compute. json_eq. Qed.

Example parseGermanNumber_comma :
  parseGermanNumber parseFloat_ref "2,50" = JS.Finite (Q2Qc (5 # 2)).
Proof. vm_compute. json_eq. Qed.

Example parseGermanNumber_two_commas :
  parseGermanNumber parseFloat_ref "1,234,5" = JS.Finite (Q2Qc (1234 # 1000)).
Proof. vm_compute. json_eq. Qed.

Example parseGermanNumber_empty :
  parseGermanNumber parseFloat_ref EmptyString = JS.Finite 0.
Proof. reflexivity. Qed.

Example parseGermanNumber_text :
  parseGermanNumber parseFloat_ref "zwei" = JS.Finite 0.
Proof. reflexivity. Qed.

(** *** The policies on small databases *)

Example insert_into_closed_session :
  insert_entry (Entry.mk "e1" "s1" "Anna" 0 0 1 1)
    (mkDatabase [Session.mk "s1" None INVITE None None CLOSED "secret" 0 None] [])
  = None.
Proof. reflexivity. Qed.

Example negative_counter_refused :
  update_entries 2 (SessionPage.eq_id "e1") (SessionPage.update_wurst_count (-1))
    (mkDatabase [Session.mk "s1" None INVITE None None OPEN "secret" 0 None]
                [Entry.mk "e1" "s1" "Anna" 0 0 1 1])
  = None.
Proof. reflexivity. Qed.

Example decrement_at_zero_sends_nothing :
  SessionPage.handleDecrementWurst [Entry.mk "e1" "s1" "Anna" 0 3 1 1] "e1" = None.
Proof. reflexivity. Qed.

Example dip_on_session_page :
  SessionPage.perform 2 (SessionPage.DipComplete (Some "e1"))
    [Entry.mk "e1" "s1" "Anna" 1 0 1 1]
    (mkDatabase [Session.mk "s1" None INVITE None None OPEN "secret" 0 None]
                [Entry.mk "e1" "s1" "Anna" 1 0 1 1; Entry.mk "e2" "s1" "Ben" 4 0 1 1])
  = mkDatabase [Session.mk "s1" None INVITE None None OPEN "secret" 0 None]
               [Entry.mk "e1" "s1" "Anna" 2 0 1 2; Entry.mk "e2" "s1" "Ben" 4 0 1 1].
Proof. reflexivity. Qed.

Example local_decrement_clamps :
  ColleagueList.handleDecrementWurst
    [mkColleague "a1" "Anna" 0 2; mkColleague "b2" "Ben" 3 0] "a1"
  = [mkColleague "a1" "Anna" 0 2; mkColleague "b2" "Ben" 3 0]
  /\ ColleagueList.handleDecrementWurst
       [mkColleague "a1" "Anna" 0 2; mkColleague "b2" "Ben" 3 0] "b2"
     = [mkColleague "a1" "Anna" 0 2; mkColleague "b2" "Ben" 2 0].
Proof. split; reflexivity. Qed.

(** * Further properties of the code *)

(** ** The administrative functions compose *)

Lemma map_fixes {A : Type} (h : A -> A) (l : list A) :
  (forall x, In x l -> h x = x) -> map h l = l.
Proof.
  intros H. induction l as [| a l IH]; cbn; [reflexivity |].
  rewrite (H a) by (now left). f_equal. apply IH. intros x Hx. apply H. now right.
Qed.


Lemma with_status_back s :
  Session.status s = OPEN ->
  Session.with_status (Session.with_status s CLOSED) OPEN = s.
Proof. destruct s; cbn. now intros ->. Qed.

Lemma close_session_update p_session_id p_admin_secret db :
  close_session p_session_id p_admin_secret db
  = (mkDatabase
       (map (fun s => if close_where p_session_id p_admin_secret s
                      then Session.with_status s CLOSED else s)
            (einstand_sessions db))
       (einstand_entries db),
     (0 <? length (List.filter (close_where p_session_id p_admin_secret)
                               (einstand_sessions db)))%nat).
Proof. reflexivity. Qed.

Lemma reopen_session_update p_session_id p_admin_secret db :
  reopen_session p_session_id p_admin_secret db
  = (mkDatabase
       (map (fun s => if reopen_where p_session_id p_admin_secret s
                      then Session.with_status s OPEN else s)
            (einstand_sessions db))
       (einstand_entries db),
     (0 <? length (List.filter (reopen_where p_session_id p_admin_secret)
                               (einstand_sessions db)))%nat).
Proof. reflexivity. Qed.

Lemma delete_session_update now p_session_id p_admin_secret db :
  delete_session now p_session_id p_admin_secret db
  = (mkDatabase
       (map (fun s => if delete_where p_session_id p_admin_secret s
                      then Session.with_deleted_at s (Some now) else s)
            (einstand_sessions db))
       (einstand_entries db),
     (0 <? length (List.filter (delete_where p_session_id p_admin_secret)
                               (einstand_sessions db)))%nat).
Proof. reflexivity. Qed.

Lemma where_id p_session_id p_admin_secret s :
  close_where p_session_id p_admin_secret s = true
  \/ reopen_where p_session_id p_admin_secret s = true
  \/ delete_where p_session_id p_admin_secret s = true ->
  p_session_id = Some (Session.id s)
  /\ p_admin_secret = Some (Session.admin_secret s)
  /\ Session.deleted_at s = None.
Proof.
  unfold close_where, reopen_where, delete_where.
  intros H.
  assert (H' : SQL.eq_param (Session.id s) p_session_id
               && SQL.eq_param (Session.admin_secret s) p_admin_secret
               && SQL.is_null (Session.deleted_at s) = true).
  { destruct H as [H | [H | H]]; [| | exact H];
      now apply andb_prop in H as [H _]. }
  apply andb_prop in H' as [[Hid Hsec]%andb_prop Hdel].
  apply eq_param_true in Hid, Hsec.
  destruct (Session.deleted_at s); [discriminate | auto].
Qed.




Lemma no_row_matches {A : Type} (w : A -> bool) (set : A -> A) (l : list A) :
  (forall x, In x l -> w x = false) ->
  map (fun x => if w x then set x else x) l = l /\ List.filter w l = [].
Proof.
  intros H. induction l as [| a l IH]; cbn; [auto |].
  rewrite (H a) by (now left).
  destruct IH as [-> ->]; [intros x Hx; apply H; now right | auto].
Qed.



(** ** What no request can do to a session *)

Lemma session_kept_refl s : session_kept s s.
Proof. unfold session_kept. tauto. Qed.

Lemma session_kept_trans s1 s2 s3 :
  session_kept s1 s2 -> session_kept s2 s3 -> session_kept s1 s3.
Proof.
  unfold session_kept.
  intros (H1 & H2 & H3 & H4 & H5 & H6 & H7 & H8)
         (G1 & G2 & G3 & G4 & G5 & G6 & G7 & G8).
  repeat split; try congruence.
  intros Hd. rewrite <- (H8 Hd). apply G8. now rewrite (H8 Hd).
Qed.

Lemma sessions_kept_refl (l : list Session.t) : Forall2 session_kept l l.
Proof. induction l; constructor; auto using session_kept_refl. Qed.

Lemma session_kept_update (w : Session.t -> bool) (set : Session.t -> Session.t)
    (l : list Session.t) :
  (forall s, w s = true -> Session.deleted_at s = None) ->
  (forall s, Session.id (set s) = Session.id s
             /\ Session.title (set s) = Session.title s
             /\ Session.mode (set s) = Session.mode s
             /\ Session.price_wurst (set s) = Session.price_wurst s
             /\ Session.price_pretzel (set s) = Session.price_pretzel s
             /\ Session.admin_secret (set s) = Session.admin_secret s
             /\ Session.created_at (set s) = Session.created_at s) ->
  Forall2 session_kept l (map (fun s => if w s then set s else s) l).
Proof.
  intros Hw Hset. apply Forall2_map_self. intros s.
  destruct (w s) eqn:Hs; [| apply session_kept_refl].
  destruct (Hset s) as (H1 & H2 & H3 & H4 & H5 & H6 & H7).
  unfold session_kept. repeat split; try assumption.
  intros Hd. now rewrite (Hw s Hs) in Hd.
Qed.

Lemma exec_sessions_kept now r db :
  exists kept added,
    einstand_sessions (exec now r db) = kept ++ added
    /\ Forall2 session_kept (einstand_sessions db) kept.
Proof.
  assert (Hsame : exists kept added,
             einstand_sessions db = kept ++ added
             /\ Forall2 session_kept (einstand_sessions db) kept).
  { exists (einstand_sessions db), []. rewrite app_nil_r.
    split; [reflexivity | apply sessions_kept_refl]. }
  destruct r as [f p s | new | | | new | w u | w]; cbn [exec]; try exact Hsame.
  - destruct f; cbn [call_admin].
    + rewrite close_session_update. cbn [fst einstand_sessions].
      eexists; exists []. rewrite app_nil_r. split; [reflexivity |].
      apply session_kept_update; [| intros []; cbn; tauto].
      intros s0 H. now apply (where_id p s s0); left.
    + rewrite delete_session_update. cbn [fst einstand_sessions].
      eexists; exists []. rewrite app_nil_r. split; [reflexivity |].
      apply session_kept_update; [| intros []; cbn; tauto].
      intros s0 H. now apply (where_id p s s0); right; right.
    + rewrite reopen_session_update. cbn [fst einstand_sessions].
      eexists; exists []. rewrite app_nil_r. split; [reflexivity |].
      apply session_kept_update; [| intros []; cbn; tauto].
      intros s0 H. now apply (where_id p s s0); right; left.
  - unfold insert_session. destruct (existsb _ _); cbn [default]; [exact Hsame |].
    exists (einstand_sessions db), [new].
    split; [reflexivity | apply sessions_kept_refl].
  - unfold insert_entry. destruct (_ && _); exact Hsame.
  - unfold update_entries. cbn zeta. destruct (forallb _ _); exact Hsame.
Qed.

(** X3.  Whatever requests are made, every session that was in the table
    is still there, in its place, with the same id, title, mode, prices,
    secret and creation time, and a deleted session is exactly as it was:
    requests only add sessions and change [status] and [deleted_at] of
    sessions that are not deleted. *)
Theorem sessions_are_kept (history : list (Z * request)) (db : database) :
  exists kept added,
    einstand_sessions (run history db) = kept ++ added
    /\ Forall2 session_kept (einstand_sessions db) kept.
Proof.
  revert db. induction history as [| [now r] history IH]; intros db; cbn [run].
  - exists (einstand_sessions db), []. rewrite app_nil_r.
    split; [reflexivity | apply sessions_kept_refl].
  - destruct (exec_sessions_kept now r db) as (k1 & a1 & E1 & F1).
    destruct (IH (exec now r db)) as (k2 & a2 & E2 & F2).
    rewrite E1 in F2. apply Forall2_app_inv_l in F2 as (k2a & k2b & F2a & F2b & ->).
    exists k2a, (k2b ++ a2). split; [now rewrite E2, app_assoc |].
    clear - F1 F2a. revert k2a F2a.
    induction F1 as [| s s1 l l1 Hs _ IHF]; intros k2a F2a.
    + apply Forall2_nil_inv_l in F2a as ->. constructor.
    + apply Forall2_cons_inv_l in F2a as (s2 & l2 & Hs2 & Hl2 & ->).
      constructor; [eapply session_kept_trans; eassumption | now apply IHF].
Qed.

(** ** Keys *)








Lemma Forall2_In_l {A B : Type} (R : A -> B -> Prop) (l : list A) (k : list B) x :
  Forall2 R l k -> In x l -> exists y, In y k /\ R x y.
Proof.
  induction 1 as [| a b l k Hab _ IH]; cbn; [tauto |].
  intros [<- | Hin]; [eauto | destruct (IH Hin) as (y & ? & ?); eauto].
Qed.

Lemma exec_session_ids now r db s :
  In s (einstand_sessions db) ->
  exists s', In s' (einstand_sessions (exec now r db))
             /\ Session.id s' = Session.id s.
Proof.
  intros Hin. destruct (exec_sessions_kept now r db) as (kept & added & -> & HF).
  destruct (Forall2_In_l _ _ _ s HF Hin) as (s' & Hin' & Hk).
  exists s'. split; [apply in_or_app; now left | apply Hk].
Qed.

Lemma open_session_exists_In sessions sid :
  open_session_exists sessions sid = true ->
  exists s, In s sessions /\ Session.id s = sid.
Proof.
  intros (s & Hin & H)%existsb_exists. exists s. split; [assumption |].
  apply andb_prop in H as [[H _]%andb_prop _]. now apply String.eqb_eq.
Qed.

Lemma exec_entries_reference now r db :
  entries_reference db -> entries_reference (exec now r db).
Proof.
  intros Href.
  assert (Hsessions : einstand_entries (exec now r db) = einstand_entries db ->
                      entries_reference (exec now r db)).
  { intros E e He. rewrite E in He. destruct (Href e He) as (s & Hs & Hid).
    destruct (exec_session_ids now r db s Hs) as (s' & Hs' & Hid').
    exists s'. split; [assumption | congruence]. }
  destruct r as [f p s | new | | | new | w u | w]; try (apply Hsessions; reflexivity).
  - apply Hsessions. cbn [exec].
    now destruct (call_admin_as_update f now p s db) as (? & ? & _ & _ & ->).
  - apply Hsessions. cbn [exec]. unfold insert_session.
    now destruct (existsb _ _).
  - cbn [exec]. unfold insert_entry.
    destruct (open_session_exists _ _) eqn:Hopen; cbn [andb default]; [| exact Href].
    destruct (entry_checks new && _); cbn [default]; [| exact Href].
    unfold Datatypes.id. intros e [He | [<- | []]]%in_app_or.
    + now apply Href.
    + now apply open_session_exists_In.
  - cbn [exec]. unfold update_entries. cbn zeta.
    destruct (forallb _ (einstand_entries db)) eqn:Hall; cbn [default]; [| exact Href].
    unfold Datatypes.id. intros e' (e & <- & He)%in_map_iff.
    rewrite forallb_forall in Hall. specialize (Hall e He).
    destruct (w e && _); [| now apply Href].
    cbn [negb orb] in Hall. apply andb_prop in Hall as [Hopen _].
    now apply open_session_exists_In.
  - cbn [exec]. unfold delete_entries. intros e [He _]%filter_In. now apply Href.
Qed.

(** X5.  The foreign key holds for ever: if every entry belongs to a
    session in the table, the same is true after any history of requests;
    no request leaves an entry without its session. *)
Theorem foreign_key_is_kept (history : list (Z * request)) (db : database) :
  entries_reference db -> entries_reference (run history db).
Proof.
  revert db. induction history as [| [now r] history IH]; intros db H;
    cbn [run]; [exact H |].
  apply IH. now apply exec_entries_reference.
Qed.

(** X5 at a database with one session and one entry, after the deletion
    of the session. *)
Lemma foreign_key_is_kept_witness :
  entries_reference
    (run [(2, Rpc DeleteSession (Some "s1") (Some "secret"))]
         (mkDatabase [Session.mk "s1" None INVITE None None OPEN "secret" 0 None]
                     [Entry.mk "e1" "s1" "Anna" 1 0 1 1])).
Proof.
  apply foreign_key_is_kept. intros e [<- | []].
  eexists. split; [left; reflexivity | reflexivity].
Defined.

(** ** Writes only while the session is open *)






(** ** What clients see *)






Lemma filter_unique {A B : Type} (f : A -> B) (p : A -> bool) (l : list A) (s : A) :
  NoDup (map f l) -> In s l -> p s = true ->
  (forall x, In x l -> p x = true -> f x = f s) ->
  List.filter p l = [s].
Proof.
  induction l as [| a l IH]; cbn; [tauto |].
  intros [Hnotin Hnd]%NoDup_cons Hin Hps Hall.
  assert (Hfresh : forall x, In x l -> f x <> f a).
  { intros x Hx Heq. apply Hnotin. apply list_elem_of_In, in_map_iff. eauto. }
  destruct (p a) eqn:Hpa.
  - assert (a = s) as ->.
    { destruct Hin as [-> | Hin]; [reflexivity |].
      exfalso. apply (Hfresh s Hin). symmetry. now apply Hall; [left |]. }
    f_equal. apply (no_row_matches p (fun x => x) l).
    intros x Hx. apply not_true_is_false. intros Hpx.
    apply (Hfresh x Hx). apply Hall; [now right | assumption].
  - destruct Hin as [-> | Hin]; [congruence |].
    apply IH; auto.
Qed.

(** X9.  The admin page loads a session only with its key: the query
    returns a session only if it is in the table, is not deleted, has the
    id asked for and has the non-empty key of the link as its secret; and
    it does return every such session. *)
Theorem admin_page_needs_key (sessionId adminSecret : string) (db : database) :
  (forall s, Pages.admin_fetch_session sessionId adminSecret db = Some s ->
             In s (einstand_sessions db)
             /\ Session.id s = sessionId
             /\ Session.admin_secret s = adminSecret
             /\ Session.deleted_at s = None
             /\ adminSecret <> EmptyString)
  /\ (sessions_pk db ->
      forall s, In s (einstand_sessions db) ->
                Session.id s = sessionId ->
                Session.admin_secret s = adminSecret ->
                Session.deleted_at s = None ->
                sessionId <> EmptyString -> adminSecret <> EmptyString ->
                Pages.admin_fetch_session sessionId adminSecret db = Some s).
Proof.
  unfold Pages.admin_fetch_session. split.
  - intros s. destruct sessionId as [| c1 r1]; [discriminate |].
    destruct adminSecret as [| c2 r2]; [discriminate |]. cbn [JS.truthy_string negb].
    destruct (select_sessions _ db) as [| s' [| s'' rest]] eqn:E; try discriminate.
    intros [= ->].
    assert (Hin : In s (select_sessions
              (fun s0 => String.eqb (Session.id s0) (String c1 r1)
                         && String.eqb (Session.admin_secret s0) (String c2 r2)
                         && SQL.is_null (Session.deleted_at s0)) db))
      by (rewrite E; now left).
    apply filter_In in Hin as [Hin H].
    apply andb_prop in H as [[[Hid%String.eqb_eq Hsec%String.eqb_eq]%andb_prop _]%andb_prop Hnull].
    repeat split; try assumption; [| discriminate].
    now destruct (Session.deleted_at s).
  - intros Hpk s Hin Hid Hsec Hdel Hne1 Hne2.
    destruct sessionId as [| c1 r1]; [congruence |].
    destruct adminSecret as [| c2 r2]; [congruence |]. cbn [JS.truthy_string negb].
    unfold select_sessions.
    rewrite (filter_unique Session.id _ (einstand_sessions db) s); auto.
    + now rewrite Hid, Hsec, Hdel, !String.eqb_refl.
    + intros x _ H.
      apply andb_prop in H as [[[Hx%String.eqb_eq _]%andb_prop _]%andb_prop _].
      congruence.
Qed.

(** X9 at a database with one session and a wrong key. *)
Lemma admin_page_needs_key_witness :
  Pages.admin_fetch_session "s1" "guess"
    (mkDatabase [Session.mk "s1" None INVITE None None OPEN "secret" 0 None] [])
  = None
  /\ Pages.admin_fetch_session "s1" "secret"
       (mkDatabase [Session.mk "s1" None INVITE None None OPEN "secret" 0 None] [])
     = Some (Session.mk "s1" None INVITE None None OPEN "secret" 0 None).
Proof.
  split; [reflexivity |].
  apply (proj2 (admin_page_needs_key "s1" "secret" _));
    try reflexivity; try discriminate; [| now left].
  unfold sessions_pk. cbn.
  apply NoDup_cons. split; [apply not_elem_of_nil | apply NoDup_nil_2].
Defined.

(** ** From the landing page to a closed session *)





(** * The local application *)

Lemma sum_map_same {A : Type} (f : A -> Z) (g : A -> A) (l : list A) :
  (forall x, f (g x) = f x) ->
  fold_left (fun sum x => sum + f x) (map g l) 0
  = fold_left (fun sum x => sum + f x) l 0.
Proof.
  intros H. induction l as [| x l IH]; cbn; [reflexivity |].
  rewrite (fold_left_add f (map g l)), (fold_left_add f l), IH, H. reflexivity.
Qed.

Lemma sum_map_one {A : Type} (f : A -> Z) (key : A -> string) (h : A -> A)
    (a : string) (d : Z) (l : list A) :
  NoDup (map key l) ->
  (exists c, In c l /\ key c = a) ->
  (forall c, f (h c) = f c + d) ->
  fold_left (fun sum x => sum + f x)
            (map (fun c => if String.eqb (key c) a then h c else c) l) 0
  = fold_left (fun sum x => sum + f x) l 0 + d.
Proof.
  intros Hnd (c & Hin & Hc) Hh.
  induction l as [| x l IH]; [destruct Hin |].
  cbn [map fold_left]. cbn in Hnd. apply NoDup_cons in Hnd as [Hnotin Hnd].
  rewrite (fold_left_add f (map _ l)), (fold_left_add f l).
  destruct (String.eqb_spec (key x) a) as [Hx | Hx].
  - rewrite map_fixes; [rewrite Hh; lia |].
    intros y Hy. destruct (String.eqb_spec (key y) a) as [Hy' | _]; [| reflexivity].
    exfalso. apply Hnotin. apply list_elem_of_In, in_map_iff.
    exists y. split; [congruence | assumption].
  - destruct Hin as [-> | Hin]; [contradiction |].
    rewrite (IH Hnd Hin). lia.
Qed.

(** X11.  A dip counts once: when the selected colleague is in the list and
    no two colleagues share an id, a completed sausage dip raises the
    total of sausages by exactly 1 and leaves the total of pretzels as it
    is, and a completed pretzel dip does the same the other way round. *)
Theorem dip_counts_once (state : AppState) (c : Colleague) :
  ids_unique (colleagues state) ->
  In c (colleagues state) ->
  activeColleagueId state = Some (id c) ->
  id c <> EmptyString ->
  (totalWurst (colleagues (App.step App.DipComplete state))
   = totalWurst (colleagues state) + 1
   /\ totalBrezeln (colleagues (App.step App.DipComplete state))
      = totalBrezeln (colleagues state))
  /\ (totalBrezeln (colleagues (App.step App.BrezelComplete state))
      = totalBrezeln (colleagues state) + 1
      /\ totalWurst (colleagues (App.step App.BrezelComplete state))
         = totalWurst (colleagues state)).
Proof.
  intros Hnd Hin Ha Hne. cbn [App.step].
  unfold App.handleDipComplete, App.handleBrezelComplete, App.is_active.
  rewrite Ha. apply truthy_opt_string_Some in Hne. rewrite Hne. cbn [negb].
  cbn [colleagues App.with_colleagues]. unfold totalWurst, totalBrezeln.
  repeat split.
  - apply (sum_map_one count id (fun c0 => ColleagueList.with_count c0 (count c0 + 1)));
      eauto.
  - apply sum_map_same. intros x. now destruct (String.eqb (id x) (id c)).
  - apply (sum_map_one (fun c0 => JS.or_zero_Z (brezelCount c0)) id
             (fun c0 => ColleagueList.with_brezelCount c0
                          (JS.or_zero_Z (brezelCount c0) + 1)));
      eauto.
    intros x. cbn. now rewrite !or_zero_Z_id.
  - apply (sum_map_same count). intros x. now destruct (String.eqb (id x) (id c)).
Qed.

(** X11 at a list of two colleagues with the first selected. *)
Lemma dip_counts_once_witness :
  let state := mkAppState [mkColleague "a1" "Anna" 2 1; mkColleague "b2" "Ben" 0 3]
                          (Some "a1") split DEFAULT_PRICE DEFAULT_BREZEL_PRICE
                          by_count in
  totalWurst (colleagues (App.step App.DipComplete state)) = 2 + 1.
Proof.
  intros state.
  refine (proj1 (proj1 (dip_counts_once state (mkColleague "a1" "Anna" 2 1) _ _ _ _))).
  - unfold ids_unique. cbn. apply NoDup_cons. split.
    + intros [H | H%not_elem_of_nil]%elem_of_cons; [discriminate | exact H].
    + apply NoDup_cons. split; [apply not_elem_of_nil | apply NoDup_nil_2].
  - now left.
  - reflexivity.
  - discriminate.
Defined.

Lemma selection_valid_map (state : AppState) (g : Colleague -> Colleague) :
  (forall c, id (g c) = id c) ->
  selection_valid state ->
  selection_valid (App.with_colleagues state (map g (colleagues state))).
Proof.
  unfold selection_valid. cbn. intros Hg.
  destruct (activeColleagueId state) as [a |]; [| auto].
  intros (c & Hin & Hc). exists (g c). split; [now apply in_map | now rewrite Hg].
Qed.

Ltac keeps_id :=
  intros ?;
  repeat match goal with
         | |- context [if ?b then _ else _] => destruct b
         end;
  reflexivity.

(** X12.  The selection never dangles: if the selection is empty or names
    a colleague of the list, the same holds after every action of the
    application on the list, and after selecting any card of the list.  In
    particular deleting the selected colleague clears the selection. *)
Theorem selection_stays_valid (state : AppState) :
  selection_valid state ->
  (forall actions,
     selection_valid (fold_left (fun s a => App.step a s) actions state))
  /\ (forall c, In c (colleagues state) ->
                selection_valid (App.with_activeColleagueId state (Some (id c))))
  /\ (forall id0, activeColleagueId state = Some id0 ->
                  activeColleagueId (App.step (App.Delete id0) state) = None).
Proof.
  intros Hvalid. split; [| split].
  - intros actions. revert state Hvalid.
    induction actions as [| a actions IH]; intros state Hvalid; cbn [fold_left];
      [exact Hvalid |].
    apply IH. destruct a; cbn [App.step].
    + unfold App.handleDipComplete. destruct (negb _); [exact Hvalid |].
      apply selection_valid_map; [keeps_id | exact Hvalid].
    + unfold App.handleBrezelComplete. destruct (negb _); [exact Hvalid |].
      apply selection_valid_map; [keeps_id | exact Hvalid].
    + apply selection_valid_map; [keeps_id | exact Hvalid].
    + unfold selection_valid, ColleagueList.handleAdd. cbn.
      eexists. split; [apply in_or_app; right; now left | reflexivity].
    + apply selection_valid_map; [keeps_id | exact Hvalid].
    + unfold selection_valid in *.
      destruct (activeColleagueId state) as [a |] eqn:Ha; cbn; [| now rewrite Ha].
      destruct (String.eqb_spec a id0) as [-> | Hne]; cbn; [exact I |].
      rewrite Ha. destruct Hvalid as (c & Hin & Hc). exists c.
      split; [| exact Hc]. unfold ColleagueList.handleDelete.
      apply filter_In. split; [exact Hin |].
      apply negb_true_iff, String.eqb_neq. congruence.
    + apply selection_valid_map; [keeps_id | exact Hvalid].
    + apply selection_valid_map; [keeps_id | exact Hvalid].
    + apply selection_valid_map; [keeps_id | exact Hvalid].
  - intros c Hin. unfold selection_valid. cbn. eauto.
  - intros id0 Ha. cbn [App.step]. rewrite Ha, String.eqb_refl. reflexivity.
Qed.

(** X12 at a run that adds two colleagues and deletes the selected
    one. *)
Lemma selection_stays_valid_witness :
  selection_valid
    (fold_left (fun s a => App.step a s)
               [App.Add "a1" "Anna"; App.Add "b2" "Ben"; App.Delete "b2";
                App.DipComplete]
               App.initialState).
Proof.
  apply (selection_stays_valid App.initialState). exact I.
Defined.


(** ** The displayed order *)

Lemma insert_Permutation {A : Type} (cmp : A -> A -> Z) (x : A) (l : list A) :
  Permutation (x :: l) (Sorting.insert cmp x l).
Proof.
  induction l as [| y r IH]; cbn; [reflexivity |].
  destruct (cmp x y <=? 0); [reflexivity |].
  rewrite <- IH. apply perm_swap.
Qed.

Lemma Array_sort_Permutation {A : Type} (cmp : A -> A -> Z) (l : list A) :
  Permutation l (Sorting.Array_sort cmp l).
Proof.
  unfold Sorting.Array_sort. induction l as [| x l IH]; cbn; [reflexivity |].
  rewrite <- insert_Permutation. now apply perm_skip.
Qed.

Lemma insert_Sorted {A : Type} (cmp : A -> A -> Z) (x : A) (l : list A) :
  (forall a b, 0 < cmp a b -> cmp b a <= 0) ->
  Sorted (fun a b => cmp a b <= 0) l ->
  Sorted (fun a b => cmp a b <= 0) (Sorting.insert cmp x l).
Proof.
  intros Htotal. induction l as [| y r IH]; cbn; intros Hs.
  - repeat constructor.
  - destruct (Z.leb_spec (cmp x y) 0) as [Hle | Hgt].
    + constructor; [exact Hs | now constructor].
    + apply Sorted_inv in Hs as [Hr Hhd]. constructor; [now apply IH |].
      destruct r as [| z r']; cbn.
      * constructor. apply Htotal. lia.
      * destruct (cmp x z <=? 0); constructor.
        -- apply Htotal. lia.
        -- now apply HdRel_inv in Hhd.
Qed.

Lemma Array_sort_Sorted {A : Type} (cmp : A -> A -> Z) (l : list A) :
  (forall a b, 0 < cmp a b -> cmp b a <= 0) ->
  Sorted (fun a b => cmp a b <= 0) (Sorting.Array_sort cmp l).
Proof.
  intros Htotal. unfold Sorting.Array_sort.
  induction l as [| x l IH]; cbn; [constructor | now apply insert_Sorted].
Qed.

Lemma Sorted_impl {A : Type} (R R' : A -> A -> Prop) (l : list A) :
  (forall a b, R a b -> R' a b) -> Sorted R l -> Sorted R' l.
Proof.
  intros HR. induction 1 as [| a l Hs IH Hhd]; constructor; [exact IH |].
  destruct Hhd; constructor; auto.
Qed.

(** X14.  The displayed list is the list of colleagues in another order:
    nobody is lost or doubled by sorting.  With a [localeCompare] that
    never calls both [a] after [b] and [b] after [a], the alphabetical
    order has every name before or equal to the next, and the order by
    count has the counts falling, equal counts in the order of the
    names. *)
Theorem sortedColleagues_sorted (localeCompare : string -> string -> Z)
    (l : list Colleague) :
  (forall sortMode,
     Permutation l (Sorting.sortedColleagues localeCompare l sortMode))
  /\ ((forall a b, 0 < localeCompare a b -> localeCompare b a <= 0) ->
      Sorted (fun a b => localeCompare (name a) (name b) <= 0)
             (Sorting.sortedColleagues localeCompare l alphabetical)
      /\ Sorted (fun a b => count b < count a
                            \/ (count b = count a
                                /\ localeCompare (name a) (name b) <= 0))
                (Sorting.sortedColleagues localeCompare l by_count)
      /\ StronglySorted (fun a b => count b <= count a)
                        (Sorting.sortedColleagues localeCompare l by_count)).
Proof.
  split.
  - intros [|]; apply Array_sort_Permutation.
  - intros Hlc.
    assert (Hcount : Sorted (fun a b => count b < count a
                                        \/ (count b = count a
                                            /\ localeCompare (name a) (name b) <= 0))
                            (Sorting.sortedColleagues localeCompare l by_count)).
    { apply (Sorted_impl (fun a b => Sorting.by_count_then_name localeCompare a b <= 0)).
      - intros a b. unfold Sorting.by_count_then_name.
        destruct (Z.eqb_spec (count b - count a) 0); intros H; [right | left]; lia.
      - apply Array_sort_Sorted. intros a b. unfold Sorting.by_count_then_name.
        destruct (Z.eqb_spec (count b - count a) 0), (Z.eqb_spec (count a - count b) 0);
          try lia.
        apply Hlc. }
    split; [| split; [exact Hcount |]].
    + apply (Array_sort_Sorted (Sorting.by_name localeCompare)).
      intros a b. apply Hlc.
    + apply Sorted_StronglySorted; [intros a b c; lia |].
      revert Hcount. apply Sorted_impl. intros a b. lia.
Qed.

(** X14 at three colleagues, ordered by count. *)
Lemma sortedColleagues_sorted_witness :
  Sorting.sortedColleagues localeCompare_ref
    [mkColleague "a1" "Zoe" 1 0; mkColleague "b2" "Ben" 3 0; mkColleague "c3" "Anna" 1 2]
    by_count
  = [mkColleague "b2" "Ben" 3 0; mkColleague "c3" "Anna" 1 2; mkColleague "a1" "Zoe" 1 0]
  /\ StronglySorted (fun a b => count b <= count a)
       (Sorting.sortedColleagues localeCompare_ref
          [mkColleague "a1" "Zoe" 1 0; mkColleague "b2" "Ben" 3 0;
           mkColleague "c3" "Anna" 1 2]
          by_count).
Proof.
  split; [reflexivity |].
  apply (sortedColleagues_sorted localeCompare_ref).
  intros a b. unfold localeCompare_ref. rewrite (String.compare_antisym a b).
  destruct (String.compare b a); cbn; lia.
Defined.

(** ** Toasts *)

(** X15.  A toast goes away after its three seconds and takes no other
    toast with it: if the id drawn by [showToast] is not the id of any
    other toast, the timer restores the list without the toast, the
    toasts shown before and after it staying in their order; the same
    holds when the toast was dismissed by hand before the timer ran. *)
Theorem toast_expires_alone (id0 message0 : string) (type0 : ToastType)
    (prev later : list Toast) :
  (forall t, In t (prev ++ later) -> toast_id t <> id0) ->
  Toasts.expire id0 (Toasts.showToast id0 message0 type0 prev ++ later)
  = prev ++ later
  /\ Toasts.dismissToast id0 (Toasts.showToast id0 message0 type0 prev ++ later)
     = prev ++ later
  /\ Toasts.expire id0 (prev ++ later) = prev ++ later.
Proof.
  intros Hfresh.
  assert (Hkeep : forall l, (forall t, In t l -> toast_id t <> id0) ->
                            List.filter (fun t => negb (String.eqb (toast_id t) id0)) l = l).
  { induction l as [| t l IH]; cbn; [reflexivity |]. intros H.
    destruct (String.eqb_spec (toast_id t) id0) as [Heq | _].
    - now destruct (H t (or_introl eq_refl)).
    - cbn. f_equal. apply IH. intros t' Ht'. apply H. now right. }
  assert (Hgo : List.filter (fun t => negb (String.eqb (toast_id t) id0))
                            ((prev ++ [mkToast id0 message0 type0]) ++ later)
                = prev ++ later).
  { rewrite !List.filter_app. cbn. rewrite String.eqb_refl. cbn.
    rewrite app_nil_r, <- List.filter_app. now apply Hkeep. }
  unfold Toasts.expire, Toasts.dismissToast, Toasts.showToast.
  split; [exact Hgo |]. split; [exact Hgo | now apply Hkeep].
Qed.

(** X15 at two toasts. *)
Lemma toast_expires_alone_witness :
  Toasts.expire "t2"
    (Toasts.showToast "t2" "Alle" info [mkToast "t1" "Anna" success]
     ++ [mkToast "t3" "Ben" success])
  = [mkToast "t1" "Anna" success] ++ [mkToast "t3" "Ben" success].
Proof.
  apply (toast_expires_alone "t2" "Alle" info [mkToast "t1" "Anna" success]
           [mkToast "t3" "Ben" success]).
  intros t [<- | [<- | []]]; discriminate.
Defined.

(** ** The mustard of the summary *)

Lemma senf_of_rest (total : Z) :
  0 <= total ->
  let s := SummarySenf.senf_of total in
  let grams := SummarySenf.senfGramsNeeded s in
  let rest := grams - 335 * SummarySenf.jars335 s in
  total * 45 <= 2 * grams
  /\ 0 <= SummarySenf.jars335 s
  /\ 0 <= rest < 335
  /\ SummarySenf.jars200 s = if 0 <? rest then JS.Math_ceil_div rest 200 else 0.
Proof.
  intros Ht s grams rest.
  pose proof (Math_ceil_div_spec total 2 ltac:(lia)) as Hhalf.
  assert (Hg : grams = JS.Math_ceil_div total 2 * 45) by reflexivity.
  pose proof (Math_floor_div_spec grams 335 ltac:(lia)) as Hfloor.
  assert (Hj : SummarySenf.jars335 s = JS.Math_floor_div grams 335) by reflexivity.
  assert (Hrem : JS.rem grams SummarySenf.jar335ml = rest).
  { unfold JS.rem, rest. rewrite Hj. unfold JS.Math_floor_div, SummarySenf.jar335ml.
    rewrite Z.rem_mod_nonneg by lia.
    pose proof (Z.div_mod grams 335 ltac:(lia)). lia. }
  split; [lia |]. split; [rewrite Hj; lia |].
  split; [unfold rest; rewrite Hj; lia |].
  rewrite <- Hrem. reflexivity.
Qed.

(** X16.  The mustard proposal is tight: for at least one sausage the
    summary names the grams needed and at least one jar (the test for
    [jars335 > 0 || jars200 > 0] never fails), it never proposes more than
    two small jars, and the jars hold less than 200 g more than is
    needed.  Without sausages it shows no mustard at all. *)
Theorem senf_proposal_is_tight (colleagues : list Colleague) (mode : AppMode)
    (p q : Qc) :
  let s := SummarySenf.senf_of (totalWurst colleagues) in
  let shown := SummarySenf.Summary colleagues mode p q in
  (0 < totalWurst colleagues ->
   In (SenfBenoetigt (SummarySenf.senfGramsNeeded s)) shown
   /\ (In (Glas335 (SummarySenf.jars335 s)
                   (JS.num (SummarySenf.jars335 s) * SummarySenf.price335ml)%Qc) shown
       \/ In (Glas200 (SummarySenf.jars200 s)
                      (JS.num (SummarySenf.jars200 s) * SummarySenf.price200ml)%Qc) shown)
   /\ 0 <= SummarySenf.jars200 s <= 2
   /\ 0 <= SummarySenf.jars335 s * 335 + SummarySenf.jars200 s * 200
           - SummarySenf.senfGramsNeeded s < 200)
  /\ (totalWurst colleagues = 0 ->
      forall x, In x shown ->
                match x with
                | SenfBenoetigt _ | Glas335 _ _ | Glas200 _ _ => False
                | _ => True
                end).
Proof.
  intros s shown. split.
  - intros Hpos.
    destruct (senf_of_rest (totalWurst colleagues) ltac:(lia))
      as (Hgrams & Hj335 & Hrest & Hj200).
    fold s in Hgrams, Hj335, Hrest, Hj200.
    set (rest := SummarySenf.senfGramsNeeded s - 335 * SummarySenf.jars335 s) in *.
    assert (Hjars : 0 <= SummarySenf.jars200 s <= 2
                    /\ (rest = 0 -> SummarySenf.jars200 s = 0)
                    /\ (0 < rest -> 0 < SummarySenf.jars200 s)
                    /\ rest <= 200 * SummarySenf.jars200 s < rest + 200).
    { rewrite Hj200. destruct (Z.ltb_spec 0 rest) as [Hr | Hr].
      - pose proof (Math_ceil_div_spec rest 200 ltac:(lia)). lia.
      - lia. }
    assert (Hone : 0 < SummarySenf.jars335 s \/ 0 < SummarySenf.jars200 s).
    { destruct (Z.ltb_spec 0 rest); [lia |]. left. unfold rest in *. lia. }
    subst shown. unfold SummarySenf.Summary. cbn zeta. fold s.
    apply Z.ltb_lt in Hpos. rewrite Hpos.
    split; [right; right; now left |].
    split; [| split; [lia | unfold rest in *; lia]].
    destruct Hone as [H335 | H200].
    + left. apply Z.ltb_lt in H335. rewrite H335. cbn [orb app].
      right. right. right. now left.
    + right. apply Z.ltb_lt in H200. rewrite H200, orb_true_r.
      rewrite !in_app_iff. cbn [In]. auto 10.
  - intros Hzero x. subst shown. unfold SummarySenf.Summary. cbn zeta.
    rewrite Hzero. cbn [Z.ltb Z.compare app].
    intros [<- | [<- | Hin]]; [exact I | exact I |].
    apply in_app_or in Hin as [Hin | Hin].
    + destruct (AppMode_eqb mode split); [| destruct Hin].
      destruct Hin as [<- | []]. exact I.
    + destruct (0 <? length colleagues)%nat; [| destruct Hin].
      destruct Hin as [<- | []]. exact I.
Qed.

(** X16 at one colleague with seventeen sausages. *)
Lemma senf_proposal_is_tight_witness :
  0 <= SummarySenf.jars200 (SummarySenf.senf_of (totalWurst [mkColleague "a1" "Anna" 17 0]))
  <= 2.
Proof.
  refine (proj1 (proj2 (proj2 (proj1
    (senf_proposal_is_tight [mkColleague "a1" "Anna" 17 0] split DEFAULT_PRICE
                            DEFAULT_BREZEL_PRICE) _)))).
  reflexivity.
Defined.

(** * The pages of a shared session *)









Lemma filter_map_commute {A B : Type} (p : B -> bool) (g : A -> B) (l : list A) :
  List.filter p (map g l) = map g (List.filter (fun x => p (g x)) l).
Proof.
  induction l as [| x l IH]; cbn; [reflexivity |].
  destruct (p (g x)); cbn; now rewrite IH.
Qed.

Lemma filter_ext_in {A : Type} (p q : A -> bool) (l : list A) :
  (forall x, In x l -> p x = q x) -> List.filter p l = List.filter q l.
Proof.
  induction l as [| x l IH]; cbn; [reflexivity |]. intros H.
  rewrite (H x (or_introl eq_refl)), IH; [reflexivity |].
  intros y Hy. apply H. now right.
Qed.

Lemma filter_filter_and {A : Type} (p q : A -> bool) (l : list A) :
  List.filter p (List.filter q l) = List.filter (fun x => p x && q x) l.
Proof.
  induction l as [| x l IH]; cbn; [reflexivity |].
  destruct (q x); cbn; rewrite IH, ?andb_false_r, ?andb_true_r; reflexivity.
Qed.






(** ** Counting on the session page *)





(** X21.  The page's copy follows the database.  Let the copy be the
    entries of the session as the database has them.  After an entry for
    the session has been inserted and the INSERT event handled, after a
    change of the counters of an entry of the session has been accepted
    and the UPDATE event with the new row handled, and after an entry of
    the session has been deleted and the DELETE event handled, the copy is
    again the entries of the session as the database has them. *)
Theorem copy_follows_database (sid : string) (db : database) :
  entries_pk db ->
  (forall new db',
     insert_entry new db = Some db' ->
     Entry.session_id new = sid ->
     Pages.on_entries_change (Pages.INSERT new) (entries_of_session sid db)
     = entries_of_session sid db')
  /\ (forall now e w p db',
        In e (einstand_entries db) ->
        Entry.session_id e = sid ->
        open_session_exists (einstand_sessions db) sid = true ->
        update_entries now (SessionPage.eq_id (Entry.id e))
                       (mkEntryUpdate None None w p) db = Some db' ->
        Pages.on_entries_change
          (Pages.UPDATE (updated_entry now (mkEntryUpdate None None w p) e))
          (entries_of_session sid db)
        = entries_of_session sid db')
  /\ (forall e,
        In e (einstand_entries db) ->
        Entry.session_id e = sid ->
        open_session_exists (einstand_sessions db) sid = true ->
        Pages.on_entries_change (Pages.DELETE e) (entries_of_session sid db)
        = entries_of_session sid
            (delete_entries (SessionPage.eq_id (Entry.id e)) db)).
Proof.
  intros Hpk. unfold entries_of_session. split; [| split].
  - intros new db' Hins Hsid. unfold insert_entry in Hins.
    destruct (_ && _ && _); [| discriminate]. injection Hins as <-.
    cbn [Pages.on_entries_change einstand_entries].
    rewrite List.filter_app. cbn. now rewrite Hsid, String.eqb_refl.
  - intros now e w p db' Hin Hsid Hopen Hupd. unfold update_entries in Hupd.
    cbn zeta in Hupd. destruct (forallb _ _); [| discriminate].
    injection Hupd as <-. cbn [Pages.on_entries_change einstand_entries].
    rewrite filter_map_commute.
    match goal with
    | |- _ = map _ (List.filter ?q ?l) =>
        rewrite (filter_ext_in q (fun x => String.eqb (Entry.session_id x) sid) l)
    end.
    2:{ intros x _. now destruct (_ && _). }
    apply map_ext_in. intros x [Hx Hxs%String.eqb_eq]%filter_In.
    unfold SessionPage.eq_id. cbn [updated_entry Entry.id].
    rewrite Hxs, Hopen, andb_true_r.
    destruct (String.eqb_spec (Entry.id x) (Entry.id e)) as [Heq | _];
      [| reflexivity].
    now rewrite (NoDup_map_inj Entry.id (einstand_entries db) x e).
  - intros e Hin Hsid Hopen. unfold delete_entries.
    cbn [Pages.on_entries_change einstand_entries einstand_sessions].
    rewrite !filter_filter_and. apply filter_ext_in. intros x _.
    unfold SessionPage.eq_id.
    destruct (String.eqb_spec (Entry.session_id x) sid) as [-> | _];
      [| now rewrite andb_false_r].
    now rewrite Hopen, !andb_true_r, andb_true_l.
Qed.

(** X21 at a session with two entries, the first of which is deleted. *)
Lemma copy_follows_database_witness :
  let anna := Entry.mk "e1" "s1" "Anna" 1 0 1 1 in
  let ben := Entry.mk "e2" "s1" "Ben" 0 2 1 1 in
  let db := mkDatabase [Session.mk "s1" None INVITE None None OPEN "secret" 0 None]
                       [anna; ben] in
  Pages.on_entries_change (Pages.DELETE anna) (entries_of_session "s1" db)
  = entries_of_session "s1" (delete_entries (SessionPage.eq_id "e1") db).
Proof.
  intros anna ben db.
  refine (proj2 (proj2 (copy_follows_database "s1" db _)) anna _ _ _);
    try reflexivity; [| now left].
  unfold entries_pk. cbn. apply NoDup_cons. split.
  - intros [H | H%not_elem_of_nil]%elem_of_cons; [discriminate | exact H].
  - apply NoDup_cons. split; [apply not_elem_of_nil | apply NoDup_nil_2].
Defined.

(** ** The list of participants on the session page *)

Lemma filter_length_lt {A : Type} (p : A -> bool) (l : list A) (x : A) :
  In x l -> p x = false -> (length (List.filter p l) < length l)%nat.
Proof.
  induction l as [| a l IH]; cbn; [tauto |].
  pose proof (List.filter_length_le p l).
  intros [-> | Hin] Hp.
  - rewrite Hp. lia.
  - specialize (IH Hin Hp). destruct (p a); cbn; lia.
Qed.

(** X22.  On the session page the list of participants turns a deletion
    into a DELETE of that entry, and nothing else into a request: for an
    entry of the page's copy, the list [handleDelete] hands over makes the
    page send the DELETE for exactly that id; a list of the same length,
    such as the one [handleEdit] hands over after a change of name, makes
    the page send nothing, so a change of name is not stored. *)
Theorem participant_list_changes (entries : list Entry.t) :
  (forall e, In e entries ->
     Pages.onColleaguesChange entries
       (ColleagueList.handleDelete (SessionPage.colleagues_of entries) (Entry.id e))
     = Some (DeleteEntries (SessionPage.eq_id (Entry.id e))))
  /\ (forall id0 name0,
        Pages.onColleaguesChange entries
          (ColleagueList.handleEdit (SessionPage.colleagues_of entries) id0 name0)
        = None)
  /\ (forall updatedColleagues,
        (length entries <= length updatedColleagues)%nat ->
        Pages.onColleaguesChange entries updatedColleagues = None).
Proof.
  assert (Hsame : forall updatedColleagues,
             (length entries <= length updatedColleagues)%nat ->
             Pages.onColleaguesChange entries updatedColleagues = None).
  { intros u Hlen. unfold Pages.onColleaguesChange. cbn zeta.
    unfold SessionPage.colleagues_of at 1. rewrite length_map.
    destruct (Nat.ltb_spec (length u) (length entries)); [lia | reflexivity]. }
  split; [| split; [| exact Hsame]].
  - intros e Hin. unfold Pages.onColleaguesChange. cbn zeta.
    set (l := SessionPage.colleagues_of entries).
    assert (Hc : In (mkColleague (Entry.id e) (Entry.display_name e)
                                 (Entry.wurst_count e) (Entry.pretzel_count e)) l).
    { unfold l, SessionPage.colleagues_of. apply in_map_iff. eauto. }
    assert (Hlt : (length (ColleagueList.handleDelete l (Entry.id e)) <? length l)%nat
                  = true).
    { apply Nat.ltb_lt. unfold ColleagueList.handleDelete.
      apply (filter_length_lt _ _ _ Hc). cbn. now rewrite String.eqb_refl. }
    rewrite Hlt.
    destruct (List.find _ l) as [c |] eqn:Hfind.
    + apply find_some in Hfind as [Hcl Hnot].
      assert (Hid : id c = Entry.id e).
      { destruct (String.eqb_spec (id c) (Entry.id e)) as [Heq | Hne]; [exact Heq |].
        apply negb_true_iff in Hnot.
        apply not_true_iff_false in Hnot. destruct Hnot.
        apply existsb_exists. exists c. split; [| apply String.eqb_refl].
        unfold ColleagueList.handleDelete. apply filter_In. split; [exact Hcl |].
        now apply negb_true_iff, String.eqb_neq. }
      rewrite Hid. unfold SessionPage.handleDeleteEntry, SessionPage.find_entry.
      destruct (List.find _ entries) eqn:Hf; [reflexivity |].
      apply (find_none _ _ Hf) in Hin. now rewrite String.eqb_refl in Hin.
    + apply (find_none _ _ Hfind) in Hc. cbn [id] in Hc.
      apply negb_false_iff, existsb_exists in Hc as (u & Hu & Hid%String.eqb_eq).
      unfold ColleagueList.handleDelete in Hu.
      apply filter_In in Hu as [_ Hu]. apply negb_true_iff, String.eqb_neq in Hu.
      contradiction.
  - intros id0 name0. apply Hsame.
    unfold ColleagueList.handleEdit, SessionPage.colleagues_of.
    rewrite !length_map. lia.
Qed.

(** X22 at a copy with two entries. *)
Lemma participant_list_changes_witness :
  let entries := [Entry.mk "e1" "s1" "Anna" 1 0 1 1; Entry.mk "e2" "s1" "Ben" 0 2 1 1] in
  Pages.onColleaguesChange entries
    (ColleagueList.handleDelete (SessionPage.colleagues_of entries) "e2")
  = Some (DeleteEntries (SessionPage.eq_id "e2")).
Proof.
  intros entries.
  apply (proj1 (participant_list_changes entries) (Entry.mk "e2" "s1" "Ben" 0 2 1 1)).
  right. now left.
Defined.

(** * The local application: storage, prices and cards *)

(** X23.  The stored state is never in the way: without an item under the
    key, with an empty item, or with an item that [JSON.parse] rejects,
    the hook starts from [initialValue]; after [clearStorage] it starts
    from [initialValue] again, whatever was stored; and neither the
    effect nor [clearStorage] touches another key of the storage. *)
Theorem storage_falls_back (JSON_stringify : json -> string)
    (JSON_parse : string -> option json)
    (localStorage : gmap string string) (key : string) (initialValue : json) :
  (localStorage !! key = None
   \/ localStorage !! key = Some EmptyString
   \/ (exists stored, localStorage !! key = Some stored
                      /\ JSON_parse stored = None) ->
   useLocalStorageState_init JSON_parse localStorage key initialValue
   = initialValue)
  /\ (forall other,
        useLocalStorageState_init JSON_parse
          (fst (clearStorage localStorage key other)) key initialValue
        = initialValue)
  /\ (forall k state, k <> key ->
        useLocalStorageState_effect JSON_stringify localStorage key state !! k
        = localStorage !! k
        /\ fst (clearStorage localStorage key initialValue) !! k
           = localStorage !! k).
Proof.
  split; [| split].
  - unfold useLocalStorageState_init.
    intros [-> | [-> | (stored & -> & Hparse)]]; [reflexivity | reflexivity |].
    rewrite Hparse. now destruct (JS.truthy_string stored).
  - intros other. unfold useLocalStorageState_init, clearStorage. cbn [fst].
    now rewrite lookup_delete_eq.
  - intros k state Hk. unfold useLocalStorageState_effect, clearStorage. cbn [fst].
    split; [apply lookup_insert_ne | apply lookup_delete_ne]; congruence.
Qed.

(** X23 with the reference parser and a broken item. *)
Lemma storage_falls_back_witness :
  useLocalStorageState_init JSONRef.parse
    (<["weisswurst-einstand" := "{oops"]> ∅) "weisswurst-einstand"
    (AppState_to_json App.initialState)
  = AppState_to_json App.initialState.
Proof.
  apply (storage_falls_back JSONRef.stringify JSONRef.parse).
  right. right. exists "{oops". split; [apply lookup_insert_eq | reflexivity].
Defined.











